(** * Verification of the release signing script [scripts/sign-release.py]

    The script hashes a release archive, builds a canonical message, signs
    it with an Ed25519 key and prints an update descriptor as JSON.  This
    development embeds the script function by function over an explicit
    model of the process environment (file system, clock, entropy, the two
    output channels) and proves the properties of its specification.

    Layout.  Definitions: text and bytes, the SHA-256 object of [hashlib],
    the encoders ([base64], [json.dumps], [strftime]), the process
    environment and its monad, the script itself, instances to run it,
    and the vocabulary of the specification (outcomes, frames, a JSON
    reader).  Properties: the library models on known values, lemmas on
    each layer, then the theorems of the specification, each marked with
    the identifier of its claim. *)

From Stdlib Require Import String Ascii.
From Stdlib Require Import List NArith ZArith Lia Bool Arith.
From Stdlib Require Import Init.Byte.
From Equations Require Import Equations.
Import ListNotations.

Set Implicit Arguments.
Local Open Scope N_scope.

(** ** Text and bytes

    A Python [str] is a sequence of code points, a [bytes] object a
    sequence of bytes.  [u] and [b] write the ASCII literals of the
    source. *)

Definition codepoint := N.
Definition str := list codepoint.
Definition bytes := list byte.

Definition u (s : string) : str := map N_of_ascii (list_ascii_of_string s).
Definition b (s : string) : bytes := list_byte_of_string s.

Definition byte_of_N (n : N) : byte :=
  match Byte.of_N (n mod 256) with
  | Some x => x
  | None => x00
  end.

(** A lowercase hexadecimal digit. *)
Definition hex_digit (n : N) : codepoint :=
  if n <? 10 then 48 + n else 87 + n.

Module Utf8.

Definition is_surrogate (c : codepoint) : bool :=
  (0xD800 <=? c) && (c <=? 0xDFFF).

(** [str.encode()]: strict UTF-8; a lone surrogate raises
    [UnicodeEncodeError], here [None]. *)
Definition encode_cp (c : codepoint) : option bytes :=
  if c <? 0x80 then Some [byte_of_N c]
  else if c <? 0x800 then
    Some [byte_of_N (0xC0 + c / 64); byte_of_N (0x80 + c mod 64)]
  else if is_surrogate c then None
  else if c <? 0x10000 then
    Some [byte_of_N (0xE0 + c / 4096); byte_of_N (0x80 + (c / 64) mod 64);
          byte_of_N (0x80 + c mod 64)]
  else if c <? 0x110000 then
    Some [byte_of_N (0xF0 + c / 262144); byte_of_N (0x80 + (c / 4096) mod 64);
          byte_of_N (0x80 + (c / 64) mod 64); byte_of_N (0x80 + c mod 64)]
  else None.

Fixpoint encode (s : str) : option bytes :=
  match s with
  | [] => Some []
  | c :: s' =>
      match encode_cp c, encode s' with
      | Some e, Some r => Some (e ++ r)
      | _, _ => None
      end
  end.

Definition is_cont (x : byte) : bool :=
  let n := Byte.to_N x in (0x80 <=? n) && (n <? 0xC0).

Definition cont (x : byte) : N := Byte.to_N x - 0x80.

(** [bytes.decode()]: strict UTF-8, rejecting stray continuation bytes,
    overlong forms, surrogates and values above U+10FFFF
    ([UnicodeDecodeError], here [None]). *)
Fixpoint decode (bs : bytes) : option str :=
  match bs with
  | [] => Some []
  | b0 :: r0 =>
      let n0 := Byte.to_N b0 in
      if n0 <? 0x80 then option_map (cons n0) (decode r0)
      else if n0 <? 0xC2 then None
      else if n0 <? 0xE0 then
        match r0 with
        | b1 :: r1 =>
            if is_cont b1
            then option_map (cons ((n0 - 0xC0) * 64 + cont b1)) (decode r1)
            else None
        | _ => None
        end
      else if n0 <? 0xF0 then
        match r0 with
        | b1 :: b2 :: r2 =>
            let c := (n0 - 0xE0) * 4096 + cont b1 * 64 + cont b2 in
            if is_cont b1 && is_cont b2 && (0x800 <=? c) && negb (is_surrogate c)
            then option_map (cons c) (decode r2)
            else None
        | _ => None
        end
      else if n0 <? 0xF5 then
        match r0 with
        | b1 :: b2 :: b3 :: r3 =>
            let c := (n0 - 0xF0) * 262144 + cont b1 * 4096 + cont b2 * 64 + cont b3 in
            if is_cont b1 && is_cont b2 && is_cont b3
               && (0x10000 <=? c) && (c <? 0x110000)
            then option_map (cons c) (decode r3)
            else None
        | _ => None
        end
      else None
  end.

End Utf8.

(** [str.isspace] for one code point: the characters [str.strip()] removes. *)
Definition isspace (c : codepoint) : bool :=
  ((0x09 <=? c) && (c <=? 0x0D)) || ((0x1C <=? c) && (c <=? 0x20))
  || (c =? 0x85) || (c =? 0xA0) || (c =? 0x1680)
  || ((0x2000 <=? c) && (c <=? 0x200A))
  || (c =? 0x2028) || (c =? 0x2029) || (c =? 0x202F) || (c =? 0x205F)
  || (c =? 0x3000).

Fixpoint lstrip (s : str) : str :=
  match s with
  | [] => []
  | c :: s' => if isspace c then lstrip s' else s
  end.

Definition rstrip (s : str) : str := rev (lstrip (rev s)).

(** [str.strip()] with no argument. *)
Definition strip (s : str) : str := rstrip (lstrip s).

(** ** [hashlib.sha256]

    The hash object as the library keeps it: the eight working words, the
    bytes of the current incomplete block, and the number of bytes absorbed.
    Words are 32-bit unsigned integers with their wrap-around written out. *)

Module SHA256.

Definition mask32 : N := 0xFFFFFFFF.
Definition add32 (x y : N) : N := (x + y) mod 2 ^ 32.
Definition rotr (n x : N) : N :=
  N.lor (N.shiftr x n) (N.land (N.shiftl x (32 - n)) mask32).
Definition shr (n x : N) : N := N.shiftr x n.
Definition not32 (x : N) : N := N.lxor x mask32.

Definition Ch (x y z : N) : N := N.lxor (N.land x y) (N.land (not32 x) z).
Definition Maj (x y z : N) : N :=
  N.lxor (N.lxor (N.land x y) (N.land x z)) (N.land y z).
Definition Sigma0 (x : N) : N := N.lxor (N.lxor (rotr 2 x) (rotr 13 x)) (rotr 22 x).
Definition Sigma1 (x : N) : N := N.lxor (N.lxor (rotr 6 x) (rotr 11 x)) (rotr 25 x).
Definition sigma0 (x : N) : N := N.lxor (N.lxor (rotr 7 x) (rotr 18 x)) (shr 3 x).
Definition sigma1 (x : N) : N := N.lxor (N.lxor (rotr 17 x) (rotr 19 x)) (shr 10 x).

(** The constants of FIPS 180-4 are not typed in but derived: the first
    32 bits of the fractional parts of the cube roots (for [K]) and of the
    square roots (for [H0]) of the first primes. *)
Definition is_prime (n : N) : bool :=
  (2 <=? n)
  && forallb (fun d => negb (n mod N.of_nat d =? 0)) (seq 2 (N.to_nat n - 2)).

Definition primes : list N := filter is_prime (map N.of_nat (seq 2 310)).

(** The integer cube root, found bit by bit from the top. *)
Fixpoint cube_root_bits (bits : nat) (x r : N) : N :=
  match bits with
  | O => r
  | S bits' =>
      let r' := r + 2 ^ N.of_nat bits' in
      cube_root_bits bits' x (if r' * r' * r' <=? x then r' else r)
  end.

Definition cube_root (x : N) : N := cube_root_bits 40 x 0.

Definition K : list N :=
  Eval vm_compute in map (fun p => cube_root (p * 2 ^ 96) mod 2 ^ 32) primes.

Definition H0 : list N :=
  Eval vm_compute in map (fun p => N.sqrt (p * 2 ^ 64) mod 2 ^ 32) (firstn 8 primes).

(** Big-endian words of a block. *)
Fixpoint words_of (bs : bytes) : list N :=
  match bs with
  | b0 :: b1 :: b2 :: b3 :: r =>
      (((Byte.to_N b0 * 256 + Byte.to_N b1) * 256 + Byte.to_N b2) * 256
       + Byte.to_N b3) :: words_of r
  | _ => []
  end.

Definition bytes_of_word (x : N) : bytes :=
  [byte_of_N (x / 16777216); byte_of_N (x / 65536); byte_of_N (x / 256); byte_of_N x].

(** The message schedule, most recent word first. *)
Fixpoint schedule (n : nat) (rw : list N) : list N :=
  match n with
  | O => rw
  | S n' =>
      let w := add32 (add32 (sigma1 (nth 1 rw 0)) (nth 6 rw 0))
                     (add32 (sigma0 (nth 14 rw 0)) (nth 15 rw 0)) in
      schedule n' (w :: rw)
  end.

Definition round (s : list N) (kw : N * N) : list N :=
  match s with
  | [a; b'; c; d; e; f; g; h] =>
      let t1 := add32 (add32 (add32 h (Sigma1 e)) (add32 (Ch e f g) (fst kw))) (snd kw) in
      let t2 := add32 (Sigma0 a) (Maj a b' c) in
      [add32 t1 t2; a; b'; c; add32 d t1; e; f; g]
  | _ => s
  end.

Fixpoint add_words (xs ys : list N) : list N :=
  match xs, ys with
  | x :: xs', y :: ys' => add32 x y :: add_words xs' ys'
  | _, _ => []
  end.

(** One application of the compression function to a 64-byte block. *)
Definition compress (h : list N) (block : bytes) : list N :=
  let w := rev (schedule 48 (rev (words_of block))) in
  add_words h (fold_left round (combine K w) h).

(** Padding for a message of [len] bytes: 0x80, zeros up to 56 mod 64,
    then the bit length on eight bytes. *)
Definition padding (len : N) : bytes :=
  let zeros := N.to_nat ((119 - len mod 64) mod 64) in
  x80 :: repeat x00 zeros
      ++ bytes_of_word ((len * 8 / 2 ^ 32) mod 2 ^ 32)
      ++ bytes_of_word ((len * 8) mod 2 ^ 32).

Definition take_block (m : bytes) : bytes := firstn 64 m.
Definition drop_block (m : bytes) : bytes := skipn 64 m.
Arguments take_block : simpl never.
Arguments drop_block : simpl never.

(** Splitting a padded message into its blocks. *)
Equations? blocks (m : bytes) : list bytes by wf (length m) lt :=
  blocks m with Nat.eq_dec (length m) 0 := {
    | left _ => []
    | right _ => take_block m :: blocks (drop_block m) }.
Proof. unfold drop_block. rewrite length_skipn. lia. Qed.

(** The reference digest of FIPS 180-4: pad, split, iterate. *)
Definition digest_of (m : bytes) : bytes :=
  flat_map bytes_of_word
    (fold_left compress (blocks (m ++ padding (N.of_nat (length m)))) H0).

Record state := mk_state { hs : list N; pending : bytes; total : N }.

(** [hashlib.sha256()] *)
Definition init : state := mk_state H0 [] 0.

(** Consume complete blocks, return the words and the incomplete rest. *)
Equations? absorb (h : list N) (m : bytes) : list N * bytes by wf (length m) lt :=
  absorb h m with le_lt_dec 64 (length m) := {
    | left _ => absorb (compress h (take_block m)) (drop_block m)
    | right _ => (h, m) }.
Proof. unfold drop_block. rewrite length_skipn. lia. Qed.

(** [h.update(data)] *)
Definition update (st : state) (data : bytes) : state :=
  let (h', rest) := absorb (hs st) (pending st ++ data) in
  mk_state h' rest (total st + N.of_nat (length data)).

(** [h.digest()] *)
Definition digest (st : state) : bytes :=
  flat_map bytes_of_word (fst (absorb (hs st) (pending st ++ padding (total st)))).

Definition hex_of_byte (x : byte) : str :=
  let n := Byte.to_N x in [hex_digit (n / 16); hex_digit (n mod 16)].

(** [h.hexdigest()] *)
Definition hexdigest (st : state) : str := flat_map hex_of_byte (digest st).

Definition hex (m : bytes) : str := flat_map hex_of_byte (digest_of m).

End SHA256.

(** ** Encoders of the standard library *)

Definition nl : str := [10].

Fixpoint join (sep : str) (parts : list str) : str :=
  match parts with
  | [] => []
  | [x] => x
  | x :: rest => x ++ sep ++ join sep rest
  end.

Module Base64.

Definition alphabet : bytes :=
  b "ABCDEFGHIJKLMNOPQRSTUVWXYZabcdefghijklmnopqrstuvwxyz0123456789+/".

Definition digit (n : N) : byte := nth (N.to_nat (n mod 64)) alphabet x3d.

(** [base64.b64encode]: the standard alphabet, padded with [=]. *)
Fixpoint b64encode (bs : bytes) : bytes :=
  match bs with
  | [] => []
  | [x] =>
      let n := Byte.to_N x in
      [digit (n / 4); digit (n mod 4 * 16); x3d; x3d]
  | [x; y] =>
      let n := Byte.to_N x in
      let m := Byte.to_N y in
      [digit (n / 4); digit (n mod 4 * 16 + m / 16); digit (m mod 16 * 4); x3d]
  | x :: y :: z :: rest =>
      let n := Byte.to_N x in
      let m := Byte.to_N y in
      let k := Byte.to_N z in
      digit (n / 4) :: digit (n mod 4 * 16 + m / 16)
        :: digit (m mod 16 * 4 + k / 64) :: digit (k mod 64) :: b64encode rest
  end.

End Base64.

Module Json.

Definition hex4 (n : N) : str :=
  [hex_digit (n / 4096 mod 16); hex_digit (n / 256 mod 16);
   hex_digit (n / 16 mod 16); hex_digit (n mod 16)].

Definition uescape (n : N) : str := [92; 117] ++ hex4 n.

(** One character under [ensure_ascii=True]: the short escapes, printable
    ASCII as it is, everything else as [\uXXXX], above the basic plane as
    a surrogate pair. *)
Definition escape_cp (c : codepoint) : str :=
  if c =? 34 then [92; 34]
  else if c =? 92 then [92; 92]
  else if c =? 10 then [92; 110]
  else if c =? 13 then [92; 114]
  else if c =? 9 then [92; 116]
  else if c =? 8 then [92; 98]
  else if c =? 12 then [92; 102]
  else if (32 <=? c) && (c <=? 126) then [c]
  else if c <? 0x10000 then uescape c
  else
    let v := c - 0x10000 in
    uescape (N.lor 0xd800 (N.land (N.shiftr v 10) 0x3ff))
      ++ uescape (N.lor 0xdc00 (N.land v 0x3ff)).

Definition quote (s : str) : str := [34] ++ flat_map escape_cp s ++ [34].

Definition member (kv : str * str) : str :=
  u "  " ++ quote (fst kv) ++ u ": " ++ quote (snd kv).

(** [json.dumps(d, indent=2)] for a dict of strings, in insertion order. *)
Definition dumps_indent2 (d : list (str * str)) : str :=
  match d with
  | [] => u "{}"
  | _ => u "{" ++ nl ++ join (u "," ++ nl) (map member d) ++ nl ++ u "}"
  end.

End Json.

Record datetime := mk_datetime
  { year : N; month : N; day : N; hour : N; minute : N; second : N }.

(** The last [w] decimal digits of [n], most significant first. *)
Fixpoint dec (w : nat) (n : N) : str :=
  match w with
  | O => []
  | S w' => dec w' (n / 10) ++ [48 + n mod 10]
  end.

(** [strftime("%Y-%m-%dT%H:%M:%SZ")], for the four-digit years of a clock. *)
Definition strftime (t : datetime) : str :=
  dec 4 (year t) ++ u "-" ++ dec 2 (month t) ++ u "-" ++ dec 2 (day t) ++ u "T"
    ++ dec 2 (hour t) ++ u ":" ++ dec 2 (minute t) ++ u ":" ++ dec 2 (second t)
    ++ u "Z".

(** Text mode reading translates [\r\n] and a lone [\r] to [\n]. *)
Fixpoint universal_newlines (s : str) : str :=
  match s with
  | [] => []
  | c :: s' =>
      if c =? 13 then
        match s' with
        | d :: s'' => if d =? 10 then 10 :: universal_newlines s''
                      else 10 :: universal_newlines s'
        | [] => [10]
        end
      else c :: universal_newlines s'
  end.

(** ** The process environment

    What a run of the script can observe and change: the file system, the
    clock, the entropy of the operating system, whether PyNaCl is
    installed, the two output channels, and a record of the system calls
    made.  A path is the text of a normalised [pathlib.Path]. *)

Definition path := str.

Inductive node : Type :=
| Dir
| File (content : bytes) (readable : bool) (fault : option nat).

Inductive event : Type :=
| Ev_exists (p : path)
| Ev_open_text (p : path)
| Ev_open_binary (p : path)
| Ev_write (p : path)
| Ev_urandom (n : nat)
| Ev_now.

Record world := mk_world
  { fs : path -> option node;
    clock : datetime;
    entropy : nat -> byte;
    entropy_used : nat;
    pynacl_installed : bool;
    stdout : str;
    stderr : str;
    trace : list event }.

Inductive exn : Type :=
| SystemExit (code : N)
| FileNotFoundError (p : path)
| IsADirectoryError (p : path)
| PermissionError (p : path)
| OSError_EIO (p : path)
| UnicodeDecodeError
| UnicodeEncodeError
| BinasciiError
| NaclValueError.

(** State and exceptions. *)
Definition M (A : Type) : Type := world -> (exn + A) * world.

Definition ret {A} (a : A) : M A := fun w => (inr a, w).
Definition raise {A} (e : exn) : M A := fun w => (inl e, w).
Definition bind {A B} (m : M A) (k : A -> M B) : M B :=
  fun w => match m w with
           | (inr a, w') => k a w'
           | (inl e, w') => (inl e, w')
           end.

Declare Scope py_scope.
Delimit Scope py_scope with py.
Notation "x <- m ;; k" := (bind m (fun x => k))
  (at level 61, m at next level, right associativity) : py_scope.
Notation "m ;; k" := (bind m (fun _ => k))
  (at level 61, right associativity) : py_scope.
Local Open Scope py_scope.

Definition lift {A} (r : exn + A) : M A :=
  match r with inl e => raise e | inr a => ret a end.

Definition add_trace (e : event) (w : world) : world :=
  mk_world (fs w) (clock w) (entropy w) (entropy_used w) (pynacl_installed w)
           (stdout w) (stderr w) (trace w ++ [e]).
Definition add_stdout (s : str) (w : world) : world :=
  mk_world (fs w) (clock w) (entropy w) (entropy_used w) (pynacl_installed w)
           (stdout w ++ s) (stderr w) (trace w).
Definition add_stderr (s : str) (w : world) : world :=
  mk_world (fs w) (clock w) (entropy w) (entropy_used w) (pynacl_installed w)
           (stdout w) (stderr w ++ s) (trace w).
Definition use_entropy (n : nat) (w : world) : world :=
  mk_world (fs w) (clock w) (entropy w) (entropy_used w + n) (pynacl_installed w)
           (stdout w) (stderr w) (trace w).

Definition log (e : event) : M unit := fun w => (inr tt, add_trace e w).

(** A line that its channel takes whole: the text and a newline. *)
Definition stdout_line (s : str) : M unit := fun w => (inr tt, add_stdout (s ++ nl) w).
Definition stderr_line (s : str) : M unit := fun w => (inr tt, add_stderr (s ++ nl) w).

(** [sys.exit(code)] *)
Definition sys_exit {A} (code : N) : M A := raise (SystemExit code).

(** [p.exists()] *)
Definition path_exists (p : path) : M bool :=
  log (Ev_exists p) ;;
  fun w => (inr (match fs w p with Some _ => true | None => false end), w).

(** [os.urandom(n)] *)
Definition urandom (n : nat) : M bytes :=
  log (Ev_urandom n) ;;
  fun w => (inr (map (entropy w) (seq (entropy_used w) n)), use_entropy n w).

(** [datetime.now(timezone.utc)] *)
Definition now_utc : M datetime :=
  log Ev_now ;; fun w => (inr (clock w), w).

(** [s.encode()] and [b.decode()] *)
Definition str_encode (s : str) : M bytes :=
  match Utf8.encode s with Some x => ret x | None => raise UnicodeEncodeError end.
Definition bytes_decode (x : bytes) : M str :=
  match Utf8.decode x with Some s => ret s | None => raise UnicodeDecodeError end.

(** An open file: its content, the position of the next read, and the
    offset at which the device fails, if it does. *)
Record handle := mk_handle
  { h_path : path; h_data : bytes; h_pos : nat; h_fault : option nat }.

Definition remaining (f : handle) : nat := length (h_data f) - h_pos f.

(** What [open(p, mode)] finds at [p]. *)
Definition open_node (p : path) (o : option node) : exn + handle :=
  match o with
  | None => inl (FileNotFoundError p)
  | Some Dir => inl (IsADirectoryError p)
  | Some (File _ false _) => inl (PermissionError p)
  | Some (File data true fault) => inr (mk_handle p data 0 fault)
  end.

(** [open(p, mode)] for reading. *)
Definition open_for_reading (ev : event) (p : path) : M handle :=
  log ev ;; fun w => lift (open_node p (fs w p)) w.

(** [open(p, 'rb')] and [open(p, 'r')] *)
Definition open_rb (p : path) : M handle := open_for_reading (Ev_open_binary p) p.
Definition open_r (p : path) : M handle := open_for_reading (Ev_open_text p) p.

(** [f.read(n)] on a binary file: the next [n] bytes, fewer at the end of
    the file; an [OSError] when the read covers the failing offset. *)
Definition f_read (f : handle) (n : nat) : exn + (bytes * handle) :=
  let chunk := firstn n (skipn (h_pos f) (h_data f)) in
  let stop := (h_pos f + length chunk)%nat in
  match h_fault f with
  | Some k =>
      if (h_pos f <=? k)%nat && (k <? stop)%nat then inl (OSError_EIO (h_path f))
      else inr (chunk, mk_handle (h_path f) (h_data f) stop (h_fault f))
  | None => inr (chunk, mk_handle (h_path f) (h_data f) stop (h_fault f))
  end.

(** [with open(p, 'r') as f: f.read()]: the whole file as text. *)
Definition read_text (p : path) : M str :=
  f <- open_r p ;;
  r <- lift (f_read f (remaining f)) ;;
  s <- bytes_decode (fst r) ;;
  ret (universal_newlines s).

(** [with open(p, 'wb') as f: f.write(data)]: what persisting a file is in
    this environment.  The script makes no such call; the frame theorems
    below say so. *)
Definition write_file (p : path) (data : bytes) : M unit :=
  log (Ev_write p) ;;
  fun w => (inr tt,
            mk_world (fun q => if list_eq_dec N.eq_dec q p
                               then Some (File data true None) else fs w q)
                     (clock w) (entropy w) (entropy_used w) (pynacl_installed w)
                     (stdout w) (stderr w) (trace w)).

(** ** Libraries outside the repository

    PyNaCl's Ed25519 primitive, the decoder behind [Base64Encoder] and the
    path arithmetic of [pathlib] are interfaces here: every theorem below
    holds whatever they compute. *)

Class Ed25519 := {
  ed25519_public : bytes -> bytes;
  ed25519_sign : bytes -> bytes -> bytes }.

Class Base64Decoder := {
  b64decode : bytes -> option bytes }.

Class Pathlib := {
  Path : str -> path;
  path_name : path -> str;
  path_parent : path -> path;
  path_join : path -> str -> path }.

Definition exn_name (e : exn) : str :=
  match e with
  | SystemExit _ => u "SystemExit"
  | FileNotFoundError p => u "FileNotFoundError: [Errno 2] No such file or directory: " ++ p
  | IsADirectoryError p => u "IsADirectoryError: [Errno 21] Is a directory: " ++ p
  | PermissionError p => u "PermissionError: [Errno 13] Permission denied: " ++ p
  | OSError_EIO p => u "OSError: [Errno 5] Input/output error"
  | UnicodeDecodeError => u "UnicodeDecodeError"
  | UnicodeEncodeError => u "UnicodeEncodeError"
  | BinasciiError => u "binascii.Error"
  | NaclValueError => u "nacl.exceptions.ValueError: The seed must be exactly 32 bytes long"
  end.

(** What the interpreter prints for an exception nobody caught (the
    stack frames left out). *)
Definition traceback (e : exn) : str :=
  u "Traceback (most recent call last):" ++ nl ++ exn_name e ++ nl.

(** The end of a script whose writes all went through: status 0, the code
    of [sys.exit], or status 1 after the traceback of an exception nobody
    caught. *)
Definition interpreter_exit (r : exn + unit) (w : world) : N * world :=
  match r with
  | inr _ => (0, w)
  | inl (SystemExit code) => (code, w)
  | inl e => (1, add_stderr (traceback e) w)
  end.

(** The two output channels are an interface as well.  [print(s)] hands a
    line to [sys.stdout] and [print(s, file=sys.stderr)] one to
    [sys.stderr]; what becomes of it (buffering, a device that is full, a
    pipe that was closed) is decided by the streams of the interpreter and
    by what is behind them, and so is what the interpreter can still do
    when the script ends ([finish]: the traceback, the flush of the
    streams, the exit status).  A write may raise, and may leave a part of
    its text on the channel. *)
Class Channels := {
  print : str -> M unit;
  eprint : str -> M unit;
  finish : exn + unit -> world -> N * world }.

(** Channels that take whatever is written to them.  Where no other
    channels are named, a run is a run on these. *)
#[export] Instance reliable : Channels :=
  {| print := stdout_line; eprint := stderr_line; finish := interpreter_exit |}.

(** ** The script *)

Definition inspect {A} (a : A) : {x : A | a = x} := exist _ a eq_refl.

(** The loop [for chunk in iter(lambda: f.read(n), b''): sha256.update(chunk)]. *)
Equations? read_loop (n : nat) (f : handle) (st : SHA256.state)
  : exn + SHA256.state by wf (remaining f) lt :=
  read_loop n f st with inspect (f_read f n) := {
    | exist _ (inl e) _ => inl e
    | exist _ (inr ([], _)) _ => inr st
    | exist _ (inr (c :: cs, f')) E => read_loop n f' (SHA256.update st (c :: cs)) }.
Proof.
  revert E. unfold f_read, remaining.
  set (chunk := firstn n (skipn (h_pos f) (h_data f))).
  assert (Hlen : (length chunk <= length (h_data f) - h_pos f)%nat)
    by (unfold chunk; rewrite length_firstn, length_skipn; lia).
  intros E.
  assert (E' : chunk = c :: cs /\
               f' = mk_handle (h_path f) (h_data f) (h_pos f + length chunk) (h_fault f)).
  { destruct (h_fault f) as [k|];
      [destruct ((h_pos f <=? k)%nat && (k <? h_pos f + length chunk)%nat);
       [discriminate|]|];
      inversion E; split; reflexivity. }
  destruct E' as [Hc ->]. rewrite Hc in *. simpl in *. lia.
Qed.

Definition CHANGELOG : list (str * str) :=
  [ (u "3.1.4", u "
### 3.1.4 - Security & Quality Hardening
- SECURITY: exec() vervangen door token_get_all() voor PHP validatie
- SECURITY: Ed25519 signed auto-updates via Vercel (vervangt unsigned GitHub releases)
- QUALITY: PHP 7.4+ type declarations op alle functies
- i18n: User-facing strings gewrapped in __()/_e()
");
    (u "3.1.3", u "
### 3.1.3 - Security Fix
- SECURITY: exec() removed from snippet security scanner
- Plugin URI header added
");
    (u "3.1.2", u "
### 3.1.2 - Bug Fixes
- Various bug fixes and improvements
");
    (u "3.0.0", u "
### 3.0.0 - Site Builder Endpoints
- NEW: Divi Builder endpoints (build, parse, validate, modules)
- NEW: Theme Builder endpoints (list, create, update, assign)
- NEW: Page endpoints (create, clone, list)
- NEW: Menu endpoints (create, items/add, assign, mega-menu)
- NEW: Media endpoints (upload, search)
- NEW: Forms endpoints (create, update, embed)
- NEW: Child Theme endpoints (functions append/remove)
- NEW: FacetWP endpoints (facet create, template)
- NEW: Taxonomy endpoints (list, create-term, assign)
") ].

Definition str_eqb (x y : str) : bool :=
  if list_eq_dec N.eq_dec x y then true else false.

(** [d.get(key, default)] *)
Fixpoint dict_get (d : list (str * str)) (key default : str) : str :=
  match d with
  | [] => default
  | (k, v) :: d' => if str_eqb k key then v else dict_get d' key default
  end.

Definition DOWNLOAD_BASE_URL : str := u "https://loiq-wp-agent.vercel.app".
Definition KEY_ID : str := u "key-2026-01".

(** [nacl.signing.SigningKey], held by its 32-byte seed. *)
Record SigningKey := mk_SigningKey { seed : bytes }.

(** The canonical message of line 131. *)
Definition canonical_message (version download_url sha256 released_at : str) : str :=
  u "version=" ++ version ++ nl ++ u "download_url=" ++ download_url ++ nl
    ++ u "sha256=" ++ sha256 ++ nl ++ u "released_at=" ++ released_at ++ nl.

(** The dict [update_info] of lines 140-153, in insertion order. *)
Definition update_info (version download_url sha256 released_at signature changelog : str)
  : list (str * str) :=
  [ (u "name", u "LOIQ WordPress Agent");
    (u "version", version);
    (u "download_url", download_url);
    (u "homepage", u "https://loiq.nl");
    (u "sha256", sha256);
    (u "released_at", released_at);
    (u "key_id", KEY_ID);
    (u "signature", signature);
    (u "changelog", strip changelog);
    (u "requires", u "5.8");
    (u "requires_php", u "7.4");
    (u "tested", u "6.7") ].

(** [compute_sha256], with the chunk size of line 104 as a parameter. *)
Definition compute_sha256_chunked (chunk_size : nat) (file_path : path) : M str :=
  f <- open_rb file_path ;;
  sha256 <- lift (read_loop chunk_size f SHA256.init) ;;
  ret (SHA256.hexdigest sha256).

Definition compute_sha256 : path -> M str :=
  compute_sha256_chunked (N.to_nat 8192).

Section Script.

Context {ED : Ed25519} {B64 : Base64Decoder} {PL : Pathlib} {CH : Channels}.

(** [__file__] *)
Variable script_file : str.

Definition SIGNING_KEY_PATH : path :=
  path_join (path_parent (Path script_file)) (u ".signing-key").

(** [SigningKey(seed)]: the seed must be 32 bytes long. *)
Definition SigningKey_of_seed (s : bytes) : M SigningKey :=
  if (length s =? 32)%nat then ret (mk_SigningKey s) else raise NaclValueError.

(** [SigningKey(data, encoder=Base64Encoder)] *)
Definition SigningKey_of_base64 (data : bytes) : M SigningKey :=
  match b64decode data with
  | Some s => SigningKey_of_seed s
  | None => raise BinasciiError
  end.

(** [SigningKey.generate()] *)
Definition SigningKey_generate : M SigningKey :=
  s <- urandom 32 ;; SigningKey_of_seed s.

(** [key.encode(encoder=Base64Encoder)] and
    [key.verify_key.encode(encoder=Base64Encoder)] *)
Definition private_b64 (key : SigningKey) : bytes :=
  Base64.b64encode (seed key).
Definition verify_key_b64 (key : SigningKey) : bytes :=
  Base64.b64encode (ed25519_public (seed key)).

(** [key.sign(msg, encoder=Base64Encoder).signature] *)
Definition sign_b64 (key : SigningKey) (msg : bytes) : bytes :=
  Base64.b64encode (ed25519_sign (seed key) msg).

Definition generate_key_pair : M SigningKey :=
  signing_key <- SigningKey_generate ;;
  private_key_b64 <- bytes_decode (private_b64 signing_key) ;;
  public_key_b64 <- bytes_decode (verify_key_b64 signing_key) ;;
  eprint (u "=== NEW KEY PAIR GENERATED ===") ;;
  eprint (u "Key ID: " ++ KEY_ID) ;;
  eprint [] ;;
  eprint (u "PRIVATE KEY (save to " ++ SIGNING_KEY_PATH ++ u "):") ;;
  eprint private_key_b64 ;;
  eprint [] ;;
  eprint (u "PUBLIC KEY (add to class-updater.php):") ;;
  eprint (u "'" ++ KEY_ID ++ u "' => '" ++ public_key_b64 ++ u "',") ;;
  eprint [] ;;
  ret signing_key.

Definition load_signing_key : M SigningKey :=
  present <- path_exists SIGNING_KEY_PATH ;;
  if negb present then
    eprint (u "No signing key found at " ++ SIGNING_KEY_PATH) ;;
    eprint (u "Generating new key pair...") ;;
    generate_key_pair
  else
    text <- read_text SIGNING_KEY_PATH ;;
    let key_b64 := strip text in
    data <- str_encode key_b64 ;;
    SigningKey_of_base64 data.

(** The confirmation of lines 159-164, as one text. *)
Definition summary (version sha256 public_key_b64 released_at : str) : str :=
  nl ++ u "=== RELEASE SIGNED ===" ++ nl
    ++ u "Version: " ++ version ++ nl
    ++ u "SHA-256: " ++ sha256 ++ nl
    ++ u "Key ID: " ++ KEY_ID ++ nl
    ++ u "Public Key: " ++ public_key_b64 ++ nl
    ++ u "Released: " ++ released_at ++ nl.

Definition sign_release (version zip_path_arg : str) : M unit :=
  let zip_path := Path zip_path_arg in
  present <- path_exists zip_path ;;
  (if negb present then
     eprint (u "Error: ZIP file not found: " ++ zip_path) ;;
     sys_exit 1
   else ret tt) ;;
  signing_key <- load_signing_key ;;
  public_key_b64 <- bytes_decode (verify_key_b64 signing_key) ;;
  sha256 <- compute_sha256 zip_path ;;
  let download_url := DOWNLOAD_BASE_URL ++ u "/" ++ path_name zip_path in
  now <- now_utc ;;
  let released_at := strftime now in
  let message := canonical_message version download_url sha256 released_at in
  message_bytes <- str_encode message ;;
  signature <- bytes_decode (sign_b64 signing_key message_bytes) ;;
  let changelog :=
    dict_get CHANGELOG version
             (u "### " ++ version ++ nl ++ u "- Bug fixes and improvements") in
  print (Json.dumps_indent2
           (update_info version download_url sha256 released_at signature changelog)) ;;
  eprint (nl ++ u "=== RELEASE SIGNED ===") ;;
  eprint (u "Version: " ++ version) ;;
  eprint (u "SHA-256: " ++ sha256) ;;
  eprint (u "Key ID: " ++ KEY_ID) ;;
  eprint (u "Public Key: " ++ public_key_b64) ;;
  eprint (u "Released: " ++ released_at).

Definition main (argv : list str) : M unit :=
  if (length argv <? 3)%nat then
    eprint (u "Usage: python3 sign-release.py <version> <zip_path>") ;;
    eprint (u "Example: python3 sign-release.py 3.1.4 ../public/loiq-wp-agent.zip") ;;
    sys_exit 1
  else
    let version := nth 1 argv [] in
    let zip_path := nth 2 argv [] in
    sign_release version zip_path.

(** The module body: the guarded import of lines 23-28, then [main()]. *)
Definition script (argv : list str) : M unit :=
  fun w =>
    if pynacl_installed w then main argv w
    else (eprint (u "Error: pynacl not installed. Run: pip install pynacl") ;;
          sys_exit 1) w.

(** Running the interpreter on the script: the exit status and the
    environment it leaves. *)
Definition python (argv : list str) (w : world) : N * world :=
  let (r, w') := script argv w in finish r w'.

End Script.

(** ** Instances to run the script on concrete inputs

    A POSIX [pathlib], the lenient decoder of CPython's [binascii], and a
    stand-in for the signature primitive with keys and signatures of the
    right sizes.  They serve the examples and the concrete instances of
    the theorems; the theorems themselves hold for every instance. *)

Module Sample.

Fixpoint split_slash (s : str) (cur : str) : list str :=
  match s with
  | [] => [rev cur]
  | c :: s' => if c =? 47 then rev cur :: split_slash s' [] else split_slash s' (c :: cur)
  end.

Definition components (s : str) : list str :=
  filter (fun c => negb (str_eqb c [] || str_eqb c (u "."))) (split_slash s []).

Definition rooted (s : str) : bool :=
  match s with c :: _ => c =? 47 | [] => false end.

Definition of_components (root : bool) (cs : list str) : path :=
  match root, cs with
  | false, [] => u "."
  | true, _ => u "/" ++ join (u "/") cs
  | false, _ => join (u "/") cs
  end.

Definition posix_Path (s : str) : path := of_components (rooted s) (components s).

Definition posix_name (p : path) : str := last (components p) [].

Definition posix_parent (p : path) : path :=
  of_components (rooted p) (removelast (components p)).

Definition posix_join (p : path) (child : str) : path :=
  if rooted child then posix_Path child
  else posix_Path (p ++ u "/" ++ child).

#[export] Instance posix : Pathlib :=
  {| Path := posix_Path; path_name := posix_name;
     path_parent := posix_parent; path_join := posix_join |}.

Fixpoint index_of (x : byte) (l : bytes) (i : N) : option N :=
  match l with
  | [] => None
  | y :: l' => if Byte.eqb x y then Some i else index_of x l' (i + 1)
  end.

(** [binascii.a2b_base64] outside strict mode: characters off the
    alphabet are skipped, a complete pad sequence ends the input. *)
Fixpoint a2b_base64 (bs : bytes) (quad_pos leftchar pads : N) (out : bytes)
  : option bytes :=
  match bs with
  | [] => if quad_pos =? 0 then Some (rev out) else None
  | x :: r =>
      if Byte.eqb x x3d then
        if (2 <=? quad_pos) && (4 <=? quad_pos + (pads + 1)) then Some (rev out)
        else a2b_base64 r quad_pos leftchar
                        (if 2 <=? quad_pos then pads + 1 else pads) out
      else
        match index_of x Base64.alphabet 0 with
        | None => a2b_base64 r quad_pos leftchar pads out
        | Some v =>
            if quad_pos =? 0 then a2b_base64 r 1 v 0 out
            else if quad_pos =? 1 then
              a2b_base64 r 2 (v mod 16) 0 (byte_of_N (leftchar * 4 + v / 16) :: out)
            else if quad_pos =? 2 then
              a2b_base64 r 3 (v mod 4) 0 (byte_of_N (leftchar * 16 + v / 4) :: out)
            else a2b_base64 r 0 0 0 (byte_of_N (leftchar * 64 + v) :: out)
        end
  end.

#[export] Instance lenient : Base64Decoder :=
  {| b64decode := fun bs => a2b_base64 bs 0 0 0 [] |}.

#[export] Instance stand_in : Ed25519 :=
  {| ed25519_public := fun sk => SHA256.digest_of (b "public" ++ sk);
     ed25519_sign := fun sk msg =>
       SHA256.digest_of (sk ++ msg) ++ SHA256.digest_of (msg ++ sk) |}.

Definition script_file : str := u "scripts/sign-release.py".
Definition key_path : path := u "scripts/.signing-key".
Definition zip_path : path := u "public/loiq-wp-agent.zip".

Definition key_text : bytes := b "AAECAwQFBgcICQoLDA0ODxAREhMUFRYXGBkaGxwdHh8=".

Definition files (key : option node) (zip : option node) (p : path) : option node :=
  if str_eqb p key_path then key
  else if str_eqb p zip_path then zip
  else if str_eqb p (u "public") then Some Dir
  else if str_eqb p (u "scripts") then Some Dir
  else None.

Definition start (key zip : option node) : world :=
  mk_world (files key zip) (mk_datetime 2026 1 15 9 30 5) (fun i => byte_of_N (N.of_nat i))
           0 true [] [] [].

Definition argv : list str :=
  [u "sign-release.py"; u "3.1.4"; u "public//./loiq-wp-agent.zip"].

Definition key_file : node := File (key_text ++ [x0a]) true None.
Definition padded_key_file : node :=
  File (b "  " ++ [x0a] ++ key_text ++ [x0a; x0a] ++ b " ") true None.
Definition broken_key_file : node := File (b "not-a-key") true None.
Definition zip_file : node := File (b "PK archive bytes") true None.

(** A [sys.stdout] that is redirected to a device with room for [room]
    characters.  Python keeps a text as short as the descriptor in the
    buffer of the stream until the script has ended: [print] succeeds, and
    the flush at exit delivers what the device has room for; when that is
    not all, the interpreter says so on [sys.stderr] and exits with
    status 120.  Here [stdout] is the text written to the stream as long
    as the script runs, and the text on the device once the interpreter
    has finished. *)
Definition flush_error : str :=
  u "Exception ignored in: <_io.TextIOWrapper name='<stdout>' mode='w' encoding='utf-8'>"
    ++ nl ++ u "OSError: [Errno 28] No space left on device" ++ nl.

Definition flush_at_exit (room : nat) (r : exn + unit) (w : world) : N * world :=
  let (status, w1) := interpreter_exit r w in
  if (length (stdout w1) <=? room)%nat then (status, w1)
  else (120,
        mk_world (fs w1) (clock w1) (entropy w1) (entropy_used w1) (pynacl_installed w1)
                 (firstn room (stdout w1)) (stderr w1 ++ flush_error) (trace w1)).

Definition out_of_room (room : nat) : Channels :=
  {| print := stdout_line; eprint := stderr_line; finish := flush_at_exit room |}.


End Sample.

(* ================================================================== *)
(** * Vocabulary of the specification

    The outcome of each part of the script as a function of the
    environment it starts in, and the predicates the theorems are stated
    with. *)


Definition is_lower_hex (c : codepoint) : bool :=
  ((48 <=? c) && (c <=? 57)) || ((97 <=? c) && (c <=? 102)).

(** One [key=value] line of the wire format, and the four lines of the
    specification in their fixed order. *)
Definition canonical_line (key : string) (value : bytes) : bytes :=
  b key ++ b "=" ++ value ++ [x0a].

Definition canonical_bytes (version download_url sha256 released_at : bytes) : bytes :=
  canonical_line "version" version ++ canonical_line "download_url" download_url
    ++ canonical_line "sha256" sha256 ++ canonical_line "released_at" released_at.

Definition slice (A : Type) (offset len : nat) (l : list A) : list A :=
  firstn len (skipn offset l).

(** A field value without a line break. *)
Definition single_line (s : str) : bool := forallb (fun c => negb (c =? 10)) s.

Definition descriptor_keys : list str :=
  [u "name"; u "version"; u "download_url"; u "homepage"; u "sha256";
   u "released_at"; u "key_id"; u "signature"; u "changelog"; u "requires";
   u "requires_php"; u "tested"].

Definition fallback_changelog (version : str) : str :=
  u "### " ++ version ++ nl ++ u "- Bug fixes and improvements".

Definition status_of (e : exn) : N :=
  match e with SystemExit code => code | _ => 1 end.

(** Reading a JSON object of strings back (RFC 8259): what the text on
    the primary channel means to a client.  Strings are returned as
    UTF-16 code units, the way [\uXXXX] escapes spell them. *)
Module JsonReader.

Definition is_ws (c : codepoint) : bool :=
  (c =? 32) || (c =? 10) || (c =? 13) || (c =? 9).

Fixpoint skip_ws (s : str) : str :=
  match s with
  | c :: r => if is_ws c then skip_ws r else s
  | [] => []
  end.

Definition unhex (c : codepoint) : option N :=
  if (48 <=? c) && (c <=? 57) then Some (c - 48)
  else if (97 <=? c) && (c <=? 102) then Some (c - 87)
  else if (65 <=? c) && (c <=? 70) then Some (c - 55)
  else None.

Definition unhex4 (h1 h2 h3 h4 : codepoint) : option N :=
  match unhex h1, unhex h2, unhex h3, unhex h4 with
  | Some x1, Some x2, Some x3, Some x4 => Some (((x1 * 16 + x2) * 16 + x3) * 16 + x4)
  | _, _, _, _ => None
  end.

Definition short_escape (c : codepoint) : option N :=
  if c =? 34 then Some 34
  else if c =? 92 then Some 92
  else if c =? 47 then Some 47
  else if c =? 98 then Some 8
  else if c =? 102 then Some 12
  else if c =? 110 then Some 10
  else if c =? 114 then Some 13
  else if c =? 116 then Some 9
  else None.

Definition push (n : N) (o : option (list N * str)) : option (list N * str) :=
  match o with
  | Some (units, rest) => Some (n :: units, rest)
  | None => None
  end.

(** After the opening quote: the code units up to the closing quote, and
    the text that follows it. *)
Fixpoint string_body (s : str) : option (list N * str) :=
  match s with
  | [] => None
  | c :: r =>
      if c =? 34 then Some ([], r)
      else if c =? 92 then
        match r with
        | e :: r1 =>
            if e =? 117 then
              match r1 with
              | h1 :: h2 :: h3 :: h4 :: r2 =>
                  match unhex4 h1 h2 h3 h4 with
                  | Some n => push n (string_body r2)
                  | None => None
                  end
              | _ => None
              end
            else
              match short_escape e with
              | Some n => push n (string_body r1)
              | None => None
              end
        | [] => None
        end
      else if c <? 32 then None
      else push c (string_body r)
  end.

Definition read_string (s : str) : option (list N * str) :=
  match skip_ws s with
  | c :: r => if c =? 34 then string_body r else None
  | [] => None
  end.

(** The members of an object, from its first member to the closing brace. *)
Fixpoint members (fuel : nat) (s : str) : option (list (list N * list N) * str) :=
  match fuel with
  | O => None
  | S fuel' =>
      match read_string s with
      | None => None
      | Some (k, r1) =>
          match skip_ws r1 with
          | c1 :: r2 =>
              if c1 =? 58 then
                match read_string r2 with
                | None => None
                | Some (v, r3) =>
                    match skip_ws r3 with
                    | c2 :: r4 =>
                        if c2 =? 44 then
                          match members fuel' r4 with
                          | Some (ms, r5) => Some ((k, v) :: ms, r5)
                          | None => None
                          end
                        else if c2 =? 125 then Some ([(k, v)], r4)
                        else None
                    | [] => None
                    end
                end
              else None
          | [] => None
          end
      end
  end.

(** A whole text that is one object whose members are strings. *)
Definition read_object (s : str) : option (list (list N * list N)) :=
  match skip_ws s with
  | c :: r =>
      if c =? 123 then
        match skip_ws r with
        | c' :: r' =>
            if c' =? 125 then
              match skip_ws r' with [] => Some [] | _ :: _ => None end
            else
              match members (length s) r with
              | Some (ms, rest) =>
                  match skip_ws rest with [] => Some ms | _ :: _ => None end
              | None => None
              end
        | [] => None
        end
      else None
  | [] => None
  end.

(** The UTF-16 code units of a text. *)
Definition units_cp (c : codepoint) : list N :=
  if c <? 0x10000 then [c]
  else
    let v := c - 0x10000 in
    [0xd800 + (v / 1024) mod 1024; 0xdc00 + v mod 1024].

Definition units (s : str) : list N := flat_map units_cp s.

Definition as_units (kv : str * str) : list N * list N :=
  (units (fst kv), units (snd kv)).

Definition push_all (l : list N) (o : option (list N * str)) : option (list N * str) :=
  fold_right push o l.

End JsonReader.

(** Whether a read of the rest of the file meets the failing offset. *)
Definition fault_ahead (f : handle) : bool :=
  match h_fault f with
  | Some k => (h_pos f <=? k)%nat && (k <? length (h_data f))%nat
  | None => false
  end.

(** What [compute_sha256] returns for each kind of entry at the path. *)
Definition checksum_outcome (p : path) (o : option node) : exn + str :=
  match o with
  | None => inl (FileNotFoundError p)
  | Some Dir => inl (IsADirectoryError p)
  | Some (File _ false _) => inl (PermissionError p)
  | Some (File data true fault) =>
      if match fault with Some k => (k <? length data)%nat | None => false end
      then inl (OSError_EIO p)
      else inr (SHA256.hex data)
  end.

(** What [open(p, 'r').read()] returns for each kind of entry at the path. *)
Definition text_outcome (p : path) (o : option node) : exn + str :=
  match open_node p o with
  | inl e => inl e
  | inr f =>
      match f_read f (remaining f) with
      | inl e => inl e
      | inr (data, _) =>
          match Utf8.decode data with
          | Some s => inr (universal_newlines s)
          | None => inl UnicodeDecodeError
          end
      end
  end.

(** [frame ok w w'] relates the environment before and after a computation
    that leaves the file system, the clock and the primary output channel
    as they were, only adds to the diagnostic channel, and makes only the
    system calls that [ok] admits. *)
Record frame (ok : event -> Prop) (w w' : world) : Prop := mk_frame
  { fr_fs : fs w' = fs w;
    fr_clock : clock w' = clock w;
    fr_entropy : entropy w' = entropy w;
    fr_pynacl : pynacl_installed w' = pynacl_installed w;
    fr_stdout : stdout w' = stdout w;
    fr_stderr : exists e, stderr w' = stderr w ++ e;
    fr_trace : exists t, trace w' = trace w ++ t /\ Forall ok t }.

Definition quiet (ok : event -> Prop) {A} (m : M A) : Prop :=
  forall w r w', m w = (r, w') -> frame ok w w'.

(** A computation that never ends with [sys.exit]. *)
Definition no_exit {A} (m : M A) : Prop :=
  forall w code, fst (m w) <> inl (SystemExit code).

Section Outcomes.

Context {ED : Ed25519} {B64 : Base64Decoder} {PL : Pathlib}.
Variable script_file : str.

Local Notation "'KEY'" := (SIGNING_KEY_PATH script_file).

(** The key a text decodes to, or the exception it raises. *)
Definition key_of_text (text : str) : exn + SigningKey :=
  match Utf8.encode (strip text) with
  | None => inl UnicodeEncodeError
  | Some data =>
      match b64decode data with
      | None => inl BinasciiError
      | Some s =>
          if (length s =? 32)%nat then inr (mk_SigningKey s) else inl NaclValueError
      end
  end.

Definition fresh_seed (w : world) : bytes :=
  map (entropy w) (seq (entropy_used w) 32).

(** The result of [load_signing_key] in an environment. *)
Definition key_outcome (w : world) : exn + SigningKey :=
  match fs w KEY with
  | None => inr (mk_SigningKey (fresh_seed w))
  | Some node =>
      match text_outcome KEY (Some node) with
      | inl e => inl e
      | inr text => key_of_text text
      end
  end.

(** The content of a key file decodes to the seed [s]: it is UTF-8 text
    which, stripped, is the base64 encoding of 32 bytes. *)
Definition key_file_decodes (content : bytes) (s : bytes) : Prop :=
  exists text data,
    Utf8.decode content = Some text
    /\ Utf8.encode (strip (universal_newlines text)) = Some data
    /\ b64decode data = Some s
    /\ length s = 32%nat.

(** The system calls of a run on the archive [zip]. *)
Definition allowed (zip : path) (e : event) : Prop :=
  e = Ev_exists zip \/ e = Ev_exists KEY \/ e = Ev_open_text KEY
  \/ e = Ev_open_binary zip \/ e = Ev_urandom 32 \/ e = Ev_now.

(** What a call of [sign_release] prints: the JSON text and the
    confirmation, or the exception that ends it. *)
Definition release_outcome (version zip_path_arg : str) (w : world)
  : exn + (str * str) :=
  let zip := Path zip_path_arg in
  match fs w zip with
  | None => inl (SystemExit 1)
  | Some _ =>
      match key_outcome w with
      | inl e => inl e
      | inr key =>
          match checksum_outcome zip (fs w zip) with
          | inl e => inl e
          | inr sha256 =>
              let download_url := DOWNLOAD_BASE_URL ++ u "/" ++ path_name zip in
              let released_at := strftime (clock w) in
              match Utf8.encode
                      (canonical_message version download_url sha256 released_at) with
              | None => inl UnicodeEncodeError
              | Some m =>
                  inr (Json.dumps_indent2
                         (update_info version download_url sha256 released_at
                            (map Byte.to_N (sign_b64 key m))
                            (dict_get CHANGELOG version (fallback_changelog version))),
                       summary version sha256 (map Byte.to_N (verify_key_b64 key))
                               released_at)
              end
          end
      end
  end.

(** What a run of the script prints, or the exception that ends it. *)
Definition run_outcome (argv : list str) (w : world) : exn + (str * str) :=
  if negb (pynacl_installed w) then inl (SystemExit 1)
  else if (length argv <? 3)%nat then inl (SystemExit 1)
  else release_outcome (nth 1 argv []) (nth 2 argv []) w.

End Outcomes.

(** ** The diagnostic texts and the environment a run leaves *)



Section Reports.

Context {ED : Ed25519} {B64 : Base64Decoder} {PL : Pathlib}.
Variable script_file : str.

Local Notation "'KEY'" := (SIGNING_KEY_PATH script_file).

(** The nine lines of [generate_key_pair]. *)
Definition key_report (key : SigningKey) : str :=
  u "=== NEW KEY PAIR GENERATED ===" ++ nl
    ++ u "Key ID: " ++ KEY_ID ++ nl
    ++ nl
    ++ u "PRIVATE KEY (save to " ++ KEY ++ u "):" ++ nl
    ++ map Byte.to_N (private_b64 key) ++ nl
    ++ nl
    ++ u "PUBLIC KEY (add to class-updater.php):" ++ nl
    ++ u "'" ++ KEY_ID ++ u "' => '" ++ map Byte.to_N (verify_key_b64 key) ++ u "'," ++ nl
    ++ nl.

(** The two lines of [load_signing_key] when there is no key file. *)
Definition absent_notice : str :=
  u "No signing key found at " ++ KEY ++ nl ++ u "Generating new key pair..." ++ nl.

(** The environment [load_signing_key] leaves. *)
Definition after_load (w : world) : world :=
  match fs w KEY with
  | Some _ => add_trace (Ev_open_text KEY) (add_trace (Ev_exists KEY) w)
  | None =>
      mk_world (fs w) (clock w) (entropy w) (entropy_used w + 32)%nat
               (pynacl_installed w) (stdout w)
               (stderr w ++ absent_notice ++ key_report (mk_SigningKey (fresh_seed w)))
               (trace w ++ [Ev_exists KEY; Ev_urandom 32])
  end.

End Reports.

(** Channels that accept what is written to them: every line is taken
    whole, and when the script has ended the traceback is taken too and
    nothing is left to flush. *)
Definition accepts (CH : Channels) : Prop :=
  (forall s w, print s w = (inr tt, add_stdout (s ++ nl) w))
  /\ (forall s w, eprint s w = (inr tt, add_stderr (s ++ nl) w))
  /\ (forall r w, finish r w = interpreter_exit r w).

(** A diagnostic channel of its own, which may fail: a write to it
    changes nothing but the diagnostic channel, to which it adds its text
    or a part of it, and raises no [SystemExit]; the interpreter, when the
    script has ended with an exception, writes nothing to the primary
    channel and exits with a status that is not 0. *)
Definition diagnostics_apart (CH : Channels) : Prop :=
  (forall s w, exists e, snd (eprint s w) = add_stderr e w)
  /\ (forall s w code, fst (eprint s w) <> inl (SystemExit code))
  /\ (forall e w, stdout (snd (finish (inl e) w)) = stdout w)
  /\ (forall e w, fst (finish (inl e) w) = 0 -> e = SystemExit 0).

(** Reading a timestamp of the form [YYYY-MM-DDTHH:MM:SSZ] back. *)
Definition undec (ds : str) : option N :=
  fold_left (fun acc c =>
               match acc with
               | Some a => if (48 <=? c) && (c <=? 57) then Some (10 * a + (c - 48))
                           else None
               | None => None
               end) ds (Some 0).

Definition parse_timestamp (s : str) : option datetime :=
  match s with
  | [y1; y2; y3; y4; d1; m1; m2; d2; a1; a2; t; h1; h2; c1; i1; i2; c2; s1; s2; z] =>
      if (d1 =? 45) && (d2 =? 45) && (t =? 84) && (c1 =? 58) && (c2 =? 58) && (z =? 90)
      then
        match undec [y1; y2; y3; y4], undec [m1; m2], undec [a1; a2],
              undec [h1; h2], undec [i1; i2], undec [s1; s2] with
        | Some y, Some m, Some d, Some h, Some i, Some s =>
            Some (mk_datetime y m d h i s)
        | _, _, _, _, _, _ => None
        end
      else None
  | _ => None
  end.

(** The value of a member of a JSON object that was read back. *)
Fixpoint json_get (ms : list (list N * list N)) (key : str) : option (list N) :=
  match ms with
  | [] => None
  | (k, v) :: ms' => if str_eqb k key then Some v else json_get ms' key
  end.

(** Text of the Basic Multilingual Plane, and 7-bit text. *)
Definition bmp (s : str) : bool := forallb (fun c => c <? 0x10000) s.
Definition ascii7 (s : str) : bool := forallb (fun c => c <? 128) s.

(* ================================================================== *)
(** * Properties *)

(** ** The library models on known values *)

Example sha_empty :
  SHA256.hex [] = u "e3b0c44298fc1c149afbf4c8996fb92427ae41e4649b934ca495991b7852b855".
Proof. vm_compute. reflexivity. Qed.

Example sha_abc :
  SHA256.hexdigest (SHA256.update SHA256.init (b "abc"))
  = u "ba7816bf8f01cfea414140de5dae2223b00361a396177a9cb410ff61f20015ad".
Proof. vm_compute. reflexivity. Qed.

Example sha_two_blocks :
  SHA256.hex (b "abcdbcdecdefdefgefghfghighijhijkijkljklmklmnlmnomnopnopq")
  = u "248d6a61d20638b8e5c026930c3e6039a33ce45964ff2167f6ecedd419db06c1".
Proof. vm_compute. reflexivity. Qed.

Example utf8_encode_example :
  Utf8.encode [233; 0x20AC; 0x1F600] = Some [xc3; xa9; xe2; x82; xac; xf0; x9f; x98; x80].
Proof. reflexivity. Qed.

Example utf8_encode_surrogate : Utf8.encode [0xDC80] = None.
Proof. reflexivity. Qed.

Example utf8_decode_surrogate : Utf8.decode [xed; xa0; x80] = None.
Proof. reflexivity. Qed.

Example utf8_decode_overlong : Utf8.decode [xc0; x80] = None.
Proof. reflexivity. Qed.

Example strip_example : strip (u "  x y " ++ [0x85; 0xA0; 10]) = u "x y".
Proof. reflexivity. Qed.

Example universal_newlines_example :
  universal_newlines [97; 13; 10; 98; 13; 99] = [97; 10; 98; 10; 99].
Proof. reflexivity. Qed.

Example b64encode_example :
  Base64.b64encode (map byte_of_N [0; 1; 2; 3; 4]) = b "AAECAwQ=".
Proof. reflexivity. Qed.

Example a2b_base64_examples :
  b64decode (Base64Decoder := Sample.lenient) (b "AAAA") = Some [x00; x00; x00]
  /\ b64decode (Base64Decoder := Sample.lenient) (b "AAA") = None
  /\ b64decode (Base64Decoder := Sample.lenient) (b "AA==") = Some [x00]
  /\ b64decode (Base64Decoder := Sample.lenient) (b "AA=") = None
  /\ b64decode (Base64Decoder := Sample.lenient) (b "A=AA") = None
  /\ b64decode (Base64Decoder := Sample.lenient) (b "!!AAAA") = Some [x00; x00; x00]
  /\ b64decode (Base64Decoder := Sample.lenient) (b "AAA=BBBB") = Some [x00; x00]
  /\ b64decode (Base64Decoder := Sample.lenient) (b "A A E C") = Some [x00; x01; x02]
  /\ b64decode (Base64Decoder := Sample.lenient) (Sample.key_text ++ b " junk")
     = Some (map byte_of_N (map N.of_nat (seq 0 32))).
Proof. repeat split; reflexivity. Qed.

Example json_quote_example :
  Json.quote ([120; 34; 92; 10; 9; 127; 233; 0x1F600; 1])
  = [34; 120; 92; 34; 92; 92] ++ u "\n\t\u007f\u00e9\ud83d\ude00\u0001" ++ [34].
Proof. reflexivity. Qed.

Example read_object_examples :
  JsonReader.read_object [123; 34; 97; 34; 58; 34; 98; 92; 110; 34; 125]
  = Some [([97], [98; 10])]
  /\ JsonReader.read_object [123; 34; 97; 34; 58; 34; 98; 125] = None
  /\ JsonReader.read_object (Json.dumps_indent2 [(u "k", [233; 0x1F600; 34])])
     = Some [(u "k", [233; 0xD83D; 0xDE00; 34])].
Proof. repeat split; reflexivity. Qed.

Example strftime_example :
  strftime (mk_datetime 2026 1 15 9 30 5) = u "2026-01-15T09:30:05Z".
Proof. reflexivity. Qed.

Example changelog_fallback_example :
  dict_get CHANGELOG (u "9.9") (fallback_changelog (u "9.9"))
  = u "### 9.9" ++ nl ++ u "- Bug fixes and improvements".
Proof. reflexivity. Qed.

Example posix_path_examples :
  Path (Pathlib := Sample.posix) (u "../site/../public//./loiq-wp-agent.zip")
  = u "../site/../public/loiq-wp-agent.zip"
  /\ path_name (Pathlib := Sample.posix) (u "../public/loiq-wp-agent.zip")
     = u "loiq-wp-agent.zip"
  /\ SIGNING_KEY_PATH (PL := Sample.posix) (u "scripts/sign-release.py")
     = u "scripts/.signing-key"
  /\ SIGNING_KEY_PATH (PL := Sample.posix) (u "sign-release.py") = u ".signing-key".
Proof. repeat split; reflexivity. Qed.

(** A whole run with the key and the archive in place: exit status 0, and
    the confirmation on the diagnostic channel. *)
Example run_example :
  let r := python (ED := Sample.stand_in) (B64 := Sample.lenient) (PL := Sample.posix)
             Sample.script_file Sample.argv
             (Sample.start (Some Sample.key_file) (Some Sample.zip_file)) in
  fst r = 0
  /\ stderr (snd r) = u "
=== RELEASE SIGNED ===
Version: 3.1.4
SHA-256: a31e1f975b7b19f74fbbb026c5393fa39743bbd4ae02fd49223f7ca675441c88
Key ID: key-2026-01
Public Key: nkgU9yA3uQuOmmPr/Sn6aGTO9/rUUW+PR4Q+6B10Fas=
Released: 2026-01-15T09:30:05Z
"
  /\ trace (snd r)
     = [Ev_exists Sample.zip_path; Ev_exists Sample.key_path;
        Ev_open_text Sample.key_path; Ev_open_binary Sample.zip_path; Ev_now].
Proof. vm_compute. repeat split. Qed.

(** The archive path names a directory: the key is loaded (here generated)
    before the checksum fails. *)
Example run_on_directory_example :
  let r := python (ED := Sample.stand_in) (B64 := Sample.lenient) (PL := Sample.posix)
             Sample.script_file [u "sign-release.py"; u "3.1.4"; u "public"]
             (Sample.start None (Some Sample.zip_file)) in
  fst r = 1
  /\ stdout (snd r) = []
  /\ trace (snd r)
     = [Ev_exists (u "public"); Ev_exists Sample.key_path; Ev_urandom 32;
        Ev_open_binary (u "public")].
Proof. vm_compute. repeat split. Qed.

(** Persisting a file is visible in the environment: it is what the frame
    theorems rule out. *)
Example write_file_example :
  let w := Sample.start None None in
  let w' := snd (write_file Sample.key_path Sample.key_text w) in
  fs w Sample.key_path = None
  /\ fs w' Sample.key_path = Some (File Sample.key_text true None)
  /\ trace w' = [Ev_write Sample.key_path].
Proof. vm_compute. repeat split. Qed.

(** ** Text and bytes *)

Ltac nlia := zify; Z.to_euclidean_division_equations; lia.

(** On the reliable channels a write is the line itself. *)
Ltac reliable_channels :=
  change (@print reliable) with stdout_line in *;
  change (@eprint reliable) with stderr_line in *;
  change (@finish reliable) with interpreter_exit in *.

Lemma to_N_byte_of_N (n : N) : n < 256 -> Byte.to_N (byte_of_N n) = n.
Proof.
  intros Hn. unfold byte_of_N. rewrite N.mod_small by assumption.
  destruct (Byte.of_N n) as [x|] eqn:E.
  - apply Byte.to_of_N. assumption.
  - apply Byte.of_N_None_iff in E. lia.
Qed.


Module Utf8Facts.
Import Utf8.

Ltac tests :=
  repeat match goal with
    | |- context [?a <? ?c] => destruct (N.ltb_spec a c); try (exfalso; nlia)
    | |- context [?a <=? ?c] => destruct (N.leb_spec a c); try (exfalso; nlia)
    end.

Lemma decode_unfold (b0 : byte) (r0 : bytes) :
  decode (b0 :: r0) =
  let n0 := Byte.to_N b0 in
  if n0 <? 0x80 then option_map (cons n0) (decode r0)
  else if n0 <? 0xC2 then None
  else if n0 <? 0xE0 then
    match r0 with
    | b1 :: r1 =>
        if is_cont b1
        then option_map (cons ((n0 - 0xC0) * 64 + cont b1)) (decode r1)
        else None
    | _ => None
    end
  else if n0 <? 0xF0 then
    match r0 with
    | b1 :: b2 :: r2 =>
        let c := (n0 - 0xE0) * 4096 + cont b1 * 64 + cont b2 in
        if is_cont b1 && is_cont b2 && (0x800 <=? c) && negb (is_surrogate c)
        then option_map (cons c) (decode r2)
        else None
    | _ => None
    end
  else if n0 <? 0xF5 then
    match r0 with
    | b1 :: b2 :: b3 :: r3 =>
        let c := (n0 - 0xF0) * 262144 + cont b1 * 4096 + cont b2 * 64 + cont b3 in
        if is_cont b1 && is_cont b2 && is_cont b3
           && (0x10000 <=? c) && (c <? 0x110000)
        then option_map (cons c) (decode r3)
        else None
    | _ => None
    end
  else None.
Proof. reflexivity. Qed.

Lemma decode_cons (x : byte) (r : bytes) :
  Byte.to_N x < 0x80 -> decode (x :: r) = option_map (cons (Byte.to_N x)) (decode r).
Proof. intros Hx. rewrite decode_unfold. cbv zeta. tests. reflexivity. Qed.

(** ASCII bytes decode to themselves. *)
Lemma decode_ascii (bs : bytes) :
  Forall (fun x => Byte.to_N x < 0x80) bs -> decode bs = Some (map Byte.to_N bs).
Proof.
  induction 1 as [|x r Hx _ IH]; [reflexivity|].
  rewrite decode_cons, IH by assumption. reflexivity.
Qed.

Ltac some_inj E :=
  apply (f_equal (fun o => match o with Some x => x | None => nil end)) in E;
  cbv beta iota in E; subst.

Ltac decode_step :=
  unfold app; rewrite (decode_unfold _ (_ :: _)); cbv beta iota zeta;
  unfold is_cont, cont, is_surrogate;
  rewrite !to_N_byte_of_N by nlia; tests; cbv beta iota delta [andb negb];
  do 2 f_equal; nlia.

Lemma decode_encode_cp (c : codepoint) (e r : bytes) :
  encode_cp c = Some e -> decode (e ++ r) = option_map (cons c) (decode r).
Proof.
  unfold encode_cp, is_surrogate. intros E.
  destruct (N.ltb_spec c 0x80).
  { some_inj E. unfold app. rewrite decode_cons; rewrite to_N_byte_of_N by lia;
      [reflexivity|assumption]. }
  destruct (N.ltb_spec c 0x800).
  { some_inj E. decode_step. }
  destruct (N.leb_spec 0xD800 c); destruct (N.leb_spec c 0xDFFF);
    cbv beta iota delta [andb] in E; try discriminate.
  all: destruct (N.ltb_spec c 0x10000).
  all: try (some_inj E; decode_step).
  all: destruct (N.ltb_spec c 0x110000); try discriminate.
  all: some_inj E; decode_step.
Qed.

(** Decoding undoes encoding. *)
Lemma decode_encode (s : str) : forall m,
  encode s = Some m -> decode m = Some s.
Proof.
  induction s as [|c s IH]; intros m E; simpl in E.
  - inversion E. reflexivity.
  - destruct (encode_cp c) as [e|] eqn:Ec; [|discriminate].
    destruct (encode s) as [r|]; [|discriminate].
    inversion E. rewrite (decode_encode_cp _ _ Ec), (IH r eq_refl). reflexivity.
Qed.

Lemma encode_inj (s s' : str) (m : bytes) :
  encode s = Some m -> encode s' = Some m -> s = s'.
Proof.
  intros E E'. apply decode_encode in E. apply decode_encode in E'. congruence.
Qed.

Lemma encode_app (s t : str) :
  encode (s ++ t) =
  match encode s, encode t with
  | Some x, Some y => Some (x ++ y)
  | _, _ => None
  end.
Proof.
  induction s as [|c s IH]; simpl.
  - destruct (encode t); reflexivity.
  - rewrite IH. destruct (encode_cp c), (encode s), (encode t);
      try reflexivity. rewrite app_assoc. reflexivity.
Qed.

(** ASCII text encodes to itself. *)
Lemma encode_ascii (s : str) :
  Forall (fun c => c < 0x80) s -> encode s = Some (map byte_of_N s).
Proof.
  induction 1 as [|c s Hc _ IH]; [reflexivity|].
  simpl. rewrite IH. unfold encode_cp.
  destruct (N.ltb_spec c 0x80); [reflexivity|lia].
Qed.

End Utf8Facts.

Module Base64Facts.
Import Base64.

Lemma alphabet_ascii : Forall (fun x => Byte.to_N x < 0x80) alphabet.
Proof. unfold alphabet, b. simpl. repeat constructor. Qed.

Lemma digit_ascii (n : N) : Byte.to_N (digit n) < 0x80.
Proof.
  unfold digit.
  destruct (nth_in_or_default (N.to_nat (n mod 64)) alphabet x3d) as [Hin | ->].
  - exact (proj1 (Forall_forall _ _) alphabet_ascii _ Hin).
  - reflexivity.
Qed.

Lemma bytes_ind3 (P : bytes -> Prop) :
  P [] -> (forall x, P [x]) -> (forall x y, P [x; y]) ->
  (forall x y z r, P r -> P (x :: y :: z :: r)) -> forall l, P l.
Proof.
  intros H0 H1 H2 H3. fix IH 1.
  intros [|x [|y [|z r]]].
  - exact H0.
  - apply H1.
  - apply H2.
  - apply H3, IH.
Qed.

Lemma b64encode_ascii (bs : bytes) :
  Forall (fun x => Byte.to_N x < 0x80) (b64encode bs).
Proof.
  induction bs as [|x|x y|x y z r IH] using bytes_ind3; cbn [b64encode];
    repeat (constructor; try apply digit_ascii; try reflexivity).
  exact IH.
Qed.

(** The output of the encoder always decodes as text. *)
Lemma decode_b64encode (bs : bytes) :
  Utf8.decode (b64encode bs) = Some (map Byte.to_N (b64encode bs)).
Proof. apply Utf8Facts.decode_ascii, b64encode_ascii. Qed.

End Base64Facts.

(** ** Stripping *)

Lemma lstrip_spaces (ws s : str) :
  forallb isspace ws = true -> lstrip (ws ++ s) = lstrip s.
Proof.
  induction ws as [|c ws IH]; simpl; intros H; [reflexivity|].
  apply andb_prop in H. destruct H as [-> H]. auto.
Qed.

Lemma lstrip_app (s ws : str) :
  forallb isspace ws = true ->
  lstrip (s ++ ws) = lstrip s ++ ws \/ (lstrip (s ++ ws) = [] /\ lstrip s = []).
Proof.
  intros H. induction s as [|c s IH]; simpl.
  - right. split; [|reflexivity].
    rewrite <- (app_nil_r ws), lstrip_spaces by assumption. reflexivity.
  - destruct (isspace c); [exact IH|]. left. reflexivity.
Qed.

Lemma rstrip_spaces (s ws : str) :
  forallb isspace ws = true -> rstrip (s ++ ws) = rstrip s.
Proof.
  intros H. unfold rstrip. rewrite rev_app_distr, lstrip_spaces; [reflexivity|].
  rewrite forallb_forall in *. intros c Hc. apply H, in_rev. assumption.
Qed.

(** Whitespace around a text does not survive [strip]. *)
Lemma strip_surrounded (ws s ws' : str) :
  forallb isspace ws = true -> forallb isspace ws' = true ->
  strip (ws ++ s ++ ws') = strip s.
Proof.
  intros H H'. unfold strip. rewrite lstrip_spaces by assumption.
  destruct (lstrip_app s _ H') as [-> | [-> ->]]; [|reflexivity].
  apply rstrip_spaces. assumption.
Qed.

(** ** The hash object *)

Module SHA256Facts.
Import SHA256.

Lemma take_block_app (m y : bytes) :
  (64 <= length m)%nat -> take_block (m ++ y) = take_block m.
Proof.
  intros Hm. unfold take_block. rewrite firstn_app.
  replace (64 - length m)%nat with 0%nat by lia.
  rewrite firstn_O. apply app_nil_r.
Qed.

Lemma drop_block_app (m y : bytes) :
  (64 <= length m)%nat -> drop_block (m ++ y) = drop_block m ++ y.
Proof.
  intros Hm. unfold drop_block. rewrite skipn_app.
  replace (64 - length m)%nat with 0%nat by lia. reflexivity.
Qed.

(** Absorbing a concatenation is absorbing its parts in turn, carrying
    the incomplete block over. *)
Lemma absorb_app (h : list N) (x y : bytes) :
  absorb h (x ++ y) = absorb (fst (absorb h x)) (snd (absorb h x) ++ y).
Proof.
  funelim (absorb h x).
  - match goal with IH : forall y, absorb _ (_ ++ y) = _ |- _ => rewrite <- IH end.
    rewrite (absorb_equation_1 h (m ++ y)).
    destruct (le_lt_dec 64 (length (m ++ y))) as [Hle|Hlt].
    + simpl. rewrite take_block_app, drop_block_app by assumption. reflexivity.
    + exfalso. rewrite length_app in Hlt. lia.
  - reflexivity.
Qed.

Lemma absorb_blocks (m : bytes) : forall h,
  (length m mod 64 = 0)%nat ->
  absorb h m = (fold_left compress (blocks m) h, []).
Proof.
  funelim (blocks m); intros h Hm.
  - destruct m; [|discriminate].
    rewrite absorb_equation_1. reflexivity.
  - rewrite absorb_equation_1.
    assert (Hge : (64 <= length m)%nat).
    { destruct (le_lt_dec 64 (length m)); [assumption|].
      rewrite Nat.mod_small in Hm by assumption. contradiction. }
    destruct (le_lt_dec 64 (length m)) as [Hle|Hlt]; [|exfalso; lia].
    simpl.
    match goal with IH : forall h, _ -> absorb h _ = _ |- _ => apply IH end.
    unfold drop_block. rewrite length_skipn.
    replace (length m) with (length m - 64 + 1 * 64)%nat in Hm by lia.
    rewrite Nat.Div0.mod_add in Hm. exact Hm.
Qed.

Lemma length_padding (len : N) :
  length (padding len) = (9 + N.to_nat ((119 - len mod 64) mod 64))%nat.
Proof.
  unfold padding. simpl. rewrite length_app, repeat_length. simpl. lia.
Qed.

Lemma pad_arith (k : N) : (k + (9 + (119 - k mod 64) mod 64)) mod 64 = 0.
Proof.
  pose proof (N.div_mod k 64 ltac:(lia)) as Hk.
  pose proof (N.mod_lt k 64 ltac:(lia)) as Hr.
  set (r := k mod 64) in *. set (q := k / 64) in *.
  destruct (N.le_gt_cases r 55) as [Hc|Hc].
  - replace ((119 - r) mod 64) with (55 - r).
    + replace (k + (9 + (55 - r))) with ((q + 1) * 64) by lia.
      apply N.Div0.mod_mul.
    + apply (N.mod_unique _ _ 1); lia.
  - rewrite (N.mod_small (119 - r)) by lia.
    replace (k + (9 + (119 - r))) with ((q + 2) * 64) by lia.
    apply N.Div0.mod_mul.
Qed.

Lemma padded_length (m : bytes) :
  (length (m ++ padding (N.of_nat (length m))) mod 64 = 0)%nat.
Proof.
  rewrite length_app, length_padding.
  pose proof (pad_arith (N.of_nat (length m))) as E.
  apply (f_equal N.to_nat) in E.
  rewrite N2Nat.inj_mod, !N2Nat.inj_add, Nat2N.id in E. exact E.
Qed.

(** Updating twice is updating once with the concatenation. *)
Lemma update_app (st : state) (x y : bytes) :
  update (update st x) y = update st (x ++ y).
Proof.
  unfold update.
  rewrite app_assoc, (absorb_app (hs st) (pending st ++ x) y).
  destruct (absorb (hs st) (pending st ++ x)) as [h1 r1]. simpl.
  destruct (absorb h1 (r1 ++ y)) as [h2 r2].
  rewrite length_app, Nat2N.inj_add, N.add_assoc. reflexivity.
Qed.

Lemma update_nil (st : state) :
  (length (pending st) < 64)%nat -> update st [] = st.
Proof.
  intros Hp. unfold update. rewrite app_nil_r, absorb_equation_1.
  destruct (le_lt_dec 64 (length (pending st))); [exfalso; lia|].
  simpl. rewrite N.add_0_r. destruct st; reflexivity.
Qed.

Lemma absorb_pending (h : list N) (m : bytes) :
  (length (snd (absorb h m)) < 64)%nat.
Proof. funelim (absorb h m); simpl; assumption. Qed.

Lemma pending_update (st : state) (x : bytes) :
  (length (pending (update st x)) < 64)%nat.
Proof.
  unfold update.
  pose proof (absorb_pending (hs st) (pending st ++ x)) as Hp.
  destruct (absorb (hs st) (pending st ++ x)). exact Hp.
Qed.

(** Feeding the chunks of any split of a message gives the state of
    feeding the message at once. *)
Lemma fold_update (chunks : list bytes) : forall st,
  (length (pending st) < 64)%nat ->
  fold_left update chunks st = update st (concat chunks).
Proof.
  induction chunks as [|c cs IH]; intros st Hp; simpl.
  - symmetry. apply update_nil. assumption.
  - rewrite IH by apply pending_update. apply update_app.
Qed.

(** The digest of the streamed object is the reference digest. *)
Lemma digest_update (m : bytes) : digest (update init m) = digest_of m.
Proof.
  unfold digest, digest_of, update. simpl.
  pose proof (absorb_app H0 m (padding (N.of_nat (length m)))) as E.
  destruct (absorb H0 m) as [h1 r1]. simpl in *.
  rewrite <- E, absorb_blocks by apply padded_length. reflexivity.
Qed.

Lemma hexdigest_chunks (chunks : list bytes) :
  hexdigest (fold_left update chunks init) = hex (concat chunks).
Proof.
  unfold hexdigest, hex.
  rewrite fold_update by (simpl; lia). rewrite digest_update. reflexivity.
Qed.

End SHA256Facts.

(** ** The JSON text *)

Module JsonFacts.
Import Json.






End JsonFacts.

Module JsonReaderFacts.
Import Json JsonReader.

Lemma unhex_hex_digit (k : N) : k < 16 -> unhex (hex_digit k) = Some k.
Proof.
  intros Hk. unfold unhex, hex_digit.
  destruct (N.ltb_spec k 10).
  - replace ((48 <=? 48 + k) && (48 + k <=? 57)) with true.
    + f_equal. lia.
    + symmetry. apply andb_true_intro. split; apply N.leb_le; lia.
  - replace ((48 <=? 87 + k) && (87 + k <=? 57)) with false.
    + replace ((97 <=? 87 + k) && (87 + k <=? 102)) with true.
      * f_equal. lia.
      * symmetry. apply andb_true_intro. split; apply N.leb_le; lia.
    + symmetry. apply andb_false_intro2. apply N.leb_gt. lia.
Qed.

Lemma unhex4_hex4 (n : N) :
  n < 65536 ->
  unhex4 (hex_digit (n / 4096 mod 16)) (hex_digit (n / 256 mod 16))
         (hex_digit (n / 16 mod 16)) (hex_digit (n mod 16)) = Some n.
Proof.
  intros Hn. unfold unhex4. rewrite !unhex_hex_digit by nlia. f_equal. nlia.
Qed.

Lemma string_body_step (c : codepoint) (r : str) :
  string_body (c :: r) =
  if c =? 34 then Some ([], r)
  else if c =? 92 then
    match r with
    | e :: r1 =>
        if e =? 117 then
          match r1 with
          | h1 :: h2 :: h3 :: h4 :: r2 =>
              match unhex4 h1 h2 h3 h4 with
              | Some n => push n (string_body r2)
              | None => None
              end
          | _ => None
          end
        else
          match short_escape e with
          | Some n => push n (string_body r1)
          | None => None
          end
    | [] => None
    end
  else if c <? 32 then None
  else push c (string_body r).
Proof. reflexivity. Qed.

Lemma string_body_uescape (n : N) (tail : str) :
  n < 65536 -> string_body (uescape n ++ tail) = push n (string_body tail).
Proof.
  intros Hn. unfold uescape, hex4, app.
  rewrite string_body_step. cbv beta iota delta [N.eqb Pos.eqb].
  rewrite unhex4_hex4 by assumption. reflexivity.
Qed.

(** Below 1024 the surrogate prefixes have no bit in common with the
    payload, so [lor] adds. *)
Lemma surrogate_lor (x : N) :
  x < 1024 -> N.lor 0xd800 x = 0xd800 + x /\ N.lor 0xdc00 x = 0xdc00 + x.
Proof.
  intros Hx.
  assert (Hall : forallb (fun k => (N.lor 0xd800 k =? 0xd800 + k)
                                   && (N.lor 0xdc00 k =? 0xdc00 + k))
                         (map N.of_nat (seq 0 1024)) = true)
    by (vm_compute; reflexivity).
  rewrite forallb_forall in Hall.
  assert (Hin : In x (map N.of_nat (seq 0 1024))).
  { rewrite <- (N2Nat.id x). apply in_map. apply in_seq. lia. }
  specialize (Hall x Hin). apply andb_prop in Hall.
  destruct Hall as [H1 H2]. split; apply N.eqb_eq; assumption.
Qed.

Lemma surrogate_pair (v : N) :
  N.lor 0xd800 (N.land (N.shiftr v 10) 0x3ff) = 0xd800 + (v / 1024) mod 1024
  /\ N.lor 0xdc00 (N.land v 0x3ff) = 0xdc00 + v mod 1024.
Proof.
  change 0x3ff with (N.ones 10). rewrite !N.land_ones, N.shiftr_div_pow2.
  change (2 ^ 10) with 1024.
  split; apply surrogate_lor; apply N.mod_lt; discriminate.
Qed.

Lemma push_all_some (l units : list N) (rest : str) :
  push_all l (Some (units, rest)) = Some (l ++ units, rest).
Proof. induction l as [|x l IH]; simpl; [reflexivity|]. rewrite IH. reflexivity. Qed.

Ltac eqb_cases c :=
  repeat match goal with
         | |- context [c =? ?k] =>
             destruct (N.eqb_spec c k) as [->|?]; [reflexivity|]
         end.

(** Reading one escaped character gives its code units. *)
Lemma string_body_escape (c : codepoint) (tail : str) :
  string_body (escape_cp c ++ tail) = push_all (units_cp c) (string_body tail).
Proof.
  unfold escape_cp. eqb_cases c.
  destruct ((32 <=? c) && (c <=? 126)) eqn:Ep.
  - apply andb_prop in Ep. destruct Ep as [E1 E2].
    apply N.leb_le in E1. apply N.leb_le in E2.
    unfold app. rewrite string_body_step.
    destruct (N.eqb_spec c 34); [contradiction|].
    destruct (N.eqb_spec c 92); [contradiction|].
    destruct (N.ltb_spec c 32); [lia|].
    unfold units_cp. destruct (N.ltb_spec c 65536); [reflexivity | lia].
  - unfold units_cp. destruct (N.ltb_spec c 65536) as [Hc|Hc].
    + rewrite string_body_uescape by assumption. reflexivity.
    + cbv zeta. destruct (surrogate_pair (c - 65536)) as [-> ->].
      rewrite <- app_assoc.
      rewrite !string_body_uescape by nlia. reflexivity.
Qed.

Lemma string_body_quoted (s : str) (rest : str) :
  string_body (flat_map escape_cp s ++ 34 :: rest) = Some (units s, rest).
Proof.
  induction s as [|c s IH]; [reflexivity|].
  cbn [flat_map]. rewrite <- app_assoc, string_body_escape, IH.
  apply push_all_some.
Qed.

Lemma read_string_quote (s : str) (rest : str) :
  read_string (quote s ++ rest) = Some (units s, rest).
Proof.
  unfold quote, read_string. rewrite <- !app_assoc.
  cbn [app skip_ws is_ws N.eqb Pos.eqb orb].
  apply string_body_quoted.
Qed.

Lemma skip_ws_quote (ws : str) (r : str) :
  forallb is_ws ws = true -> skip_ws (ws ++ 34 :: r) = 34 :: r.
Proof.
  induction ws as [|c ws IH]; intros H; [reflexivity|].
  cbn [forallb] in H. apply andb_prop in H. destruct H as [Hc Hws].
  cbn [app skip_ws]. rewrite Hc. auto.
Qed.

Lemma read_string_ws (ws s rest : str) :
  forallb is_ws ws = true ->
  read_string (ws ++ quote s ++ rest) = Some (units s, rest).
Proof.
  intros H. unfold read_string, quote. rewrite <- !app_assoc.
  change ([34] ++ flat_map escape_cp s ++ [34] ++ rest)
    with (34 :: flat_map escape_cp s ++ 34 :: rest).
  rewrite skip_ws_quote by assumption.
  change (34 =? 34) with true. cbv iota. apply string_body_quoted.
Qed.

Lemma members_step (fuel : nat) (s : str) :
  members (S fuel) s =
  match read_string s with
  | None => None
  | Some (k, r1) =>
      match skip_ws r1 with
      | c1 :: r2 =>
          if c1 =? 58 then
            match read_string r2 with
            | None => None
            | Some (v, r3) =>
                match skip_ws r3 with
                | c2 :: r4 =>
                    if c2 =? 44 then
                      match members fuel r4 with
                      | Some (ms, r5) => Some ((k, v) :: ms, r5)
                      | None => None
                      end
                    else if c2 =? 125 then Some ([(k, v)], r4)
                    else None
                | [] => None
                end
            end
          else None
      | [] => None
      end
  end.
Proof. reflexivity. Qed.

(** One member, as [dumps_indent2] lays it out, and what follows it. *)
Lemma members_member (fuel : nat) (k v tail : str) :
  members (S fuel) (nl ++ member (k, v) ++ tail) =
  match skip_ws tail with
  | c2 :: r4 =>
      if c2 =? 44 then
        match members fuel r4 with
        | Some (ms, r5) => Some ((units k, units v) :: ms, r5)
        | None => None
        end
      else if c2 =? 125 then Some ([(units k, units v)], r4)
      else None
  | [] => None
  end.
Proof.
  rewrite members_step. unfold member. cbn [fst snd].
  replace (nl ++ (u "  " ++ quote k ++ u ": " ++ quote v) ++ tail)
    with ((nl ++ u "  ") ++ quote k ++ ([58] ++ [32] ++ quote v ++ tail))
    by (rewrite <- !app_assoc; reflexivity).
  rewrite read_string_ws by reflexivity.
  change (skip_ws ([58] ++ [32] ++ quote v ++ tail))
    with (58 :: [32] ++ quote v ++ tail).
  change (58 =? 58) with true. cbv iota.
  rewrite read_string_ws by reflexivity. reflexivity.
Qed.

(** The members written by [dumps_indent2] read back one by one. *)
Lemma members_join (d : list (str * str)) :
  forall (kv : str * str) (fuel : nat) (rest : str),
    (length d < fuel)%nat ->
    members fuel (nl ++ join (u "," ++ nl) (map member (kv :: d)) ++ nl ++ u "}" ++ rest)
    = Some (map as_units (kv :: d), rest).
Proof.
  induction d as [|kv' d IH]; intros [k v] fuel rest Hfuel;
    (destruct fuel as [|fuel]; [inversion Hfuel|]).
  - cbn [map join]. rewrite members_member. reflexivity.
  - change (join (u "," ++ nl) (map member ((k, v) :: kv' :: d)))
      with (member (k, v) ++ (u "," ++ nl) ++ join (u "," ++ nl) (map member (kv' :: d))).
    rewrite <- !app_assoc. rewrite members_member.
    change (skip_ws (u "," ++ nl ++ join (u "," ++ nl) (map member (kv' :: d))
                       ++ nl ++ u "}" ++ rest))
      with (44 :: nl ++ join (u "," ++ nl) (map member (kv' :: d))
                       ++ nl ++ u "}" ++ rest).
    change (44 =? 44) with true. cbv iota.
    rewrite IH by (simpl in Hfuel; lia). reflexivity.
Qed.

Lemma dumps_length (d : list (str * str)) :
  (length d <= length (dumps_indent2 d))%nat.
Proof.
  destruct d as [|kv d]; [simpl; lia|].
  unfold dumps_indent2. rewrite !length_app.
  assert (H : forall l : list (str * str),
             (length l <= length (join (u "," ++ nl) (map member l)))%nat).
  { induction l as [|x [|y l] IH]; [simpl; lia | |].
    - cbn [map join]. unfold member. rewrite !length_app. simpl. lia.
    - change (join (u "," ++ nl) (map member (x :: y :: l)))
        with (member x ++ (u "," ++ nl) ++ join (u "," ++ nl) (map member (y :: l))).
      rewrite !length_app. simpl in *. lia. }
  specialize (H (kv :: d)). lia.
Qed.

(** The text written by [dumps_indent2] is a JSON object; read back, it
    has the same members in the same order. *)
Theorem read_object_dumps (d : list (str * str)) :
  read_object (dumps_indent2 d) = Some (map as_units d).
Proof.
  destruct d as [|kv d]; [reflexivity|].
  unfold read_object.
  pose proof (dumps_length (kv :: d)) as Hlen.
  set (n := length (dumps_indent2 (kv :: d))) in *.
  unfold dumps_indent2.
  change (skip_ws (u "{" ++ nl ++ join (u "," ++ nl) (map member (kv :: d)) ++ nl ++ u "}"))
    with (123 :: nl ++ join (u "," ++ nl) (map member (kv :: d)) ++ nl ++ u "}").
  change (123 =? 123) with true. cbv iota.
  assert (Hm : members n (nl ++ join (u "," ++ nl) (map member (kv :: d))
                             ++ nl ++ u "}" ++ [])
               = Some (map as_units (kv :: d), []))
    by (apply members_join; simpl in Hlen; lia).
  rewrite app_nil_r in Hm.
  assert (Hs : exists r, skip_ws (nl ++ join (u "," ++ nl) (map member (kv :: d))
                                     ++ nl ++ u "}") = 34 :: r).
  { destruct kv as [k v]. destruct d as [|kv' d].
    - cbn [map join]. unfold member, quote. cbn [fst snd]. rewrite <- !app_assoc.
      eexists. reflexivity.
    - change (join (u "," ++ nl) (map member ((k, v) :: kv' :: d)))
        with (member (k, v) ++ (u "," ++ nl) ++ join (u "," ++ nl) (map member (kv' :: d))).
      unfold member at 1, quote. cbn [fst snd]. rewrite <- !app_assoc.
      eexists. reflexivity. }
  destruct Hs as [r Hs]. rewrite Hs.
  change (34 =? 125) with false. cbv iota.
  rewrite Hm. reflexivity.
Qed.

End JsonReaderFacts.

(** ** Frames *)

Section Frame.

Variable ok : event -> Prop.

Lemma frame_refl (w : world) : frame ok w w.
Proof.
  constructor; try reflexivity.
  - exists []. symmetry. apply app_nil_r.
  - exists []. split; [symmetry; apply app_nil_r | constructor].
Qed.

Lemma frame_trans (w1 w2 w3 : world) : frame ok w1 w2 -> frame ok w2 w3 -> frame ok w1 w3.
Proof.
  intros [F1 C1 E1 P1 O1 [e1 S1] [t1 [T1 A1]]] [F2 C2 E2 P2 O2 [e2 S2] [t2 [T2 A2]]].
  constructor; try congruence.
  - exists (e1 ++ e2). rewrite S2, S1, app_assoc. reflexivity.
  - exists (t1 ++ t2). split.
    + rewrite T2, T1, app_assoc. reflexivity.
    + apply Forall_app. split; assumption.
Qed.

Lemma quiet_ret A (a : A) : quiet ok (ret a).
Proof. intros w r w' E. inversion E; subst. apply frame_refl. Qed.

Lemma quiet_raise A (e : exn) : quiet ok (@raise A e).
Proof. intros w r w' E. inversion E; subst. apply frame_refl. Qed.

Lemma quiet_lift A (x : exn + A) : quiet ok (lift x).
Proof. destruct x; [apply quiet_raise | apply quiet_ret]. Qed.

Lemma quiet_bind A B (m : M A) (k : A -> M B) :
  quiet ok m -> (forall a, quiet ok (k a)) -> quiet ok (bind m k).
Proof.
  intros Hm Hk w r w' E. unfold bind in E.
  destruct (m w) as [[e|a] w1] eqn:Em.
  - inversion E; subst. exact (Hm _ _ _ Em).
  - exact (frame_trans (Hm _ _ _ Em) (Hk a _ _ _ E)).
Qed.

Lemma quiet_log (e : event) : ok e -> quiet ok (log e).
Proof.
  intros He w r w' E. unfold log in E. inversion E; subst; clear E.
  constructor; cbn; try reflexivity.
  - exists []. symmetry. apply app_nil_r.
  - exists [e]. split; [reflexivity | repeat constructor; assumption].
Qed.

Lemma quiet_eprint (s : str) : quiet ok (eprint s).
Proof.
  intros w r w' E. unfold eprint in E. inversion E; subst; clear E.
  constructor; cbn; try reflexivity.
  - eexists. reflexivity.
  - exists []. split; [symmetry; apply app_nil_r | constructor].
Qed.

Lemma quiet_read (A : Type) (g : world -> A) : quiet ok (fun w => (inr (g w), w)).
Proof. intros w r w' E. inversion E; subst. apply frame_refl. Qed.

Lemma quiet_path_exists (p : path) : ok (Ev_exists p) -> quiet ok (path_exists p).
Proof.
  intros He. unfold path_exists. apply quiet_bind; [apply quiet_log, He|].
  intros _. apply (quiet_read (fun w => match fs w p with Some _ => true | None => false end)).
Qed.

Lemma quiet_urandom (n : nat) : ok (Ev_urandom n) -> quiet ok (urandom n).
Proof.
  intros He. unfold urandom. apply quiet_bind; [apply quiet_log, He|].
  intros _ w r w' E. inversion E; subst; clear E.
  constructor; cbn; try reflexivity.
  - exists []. symmetry. apply app_nil_r.
  - exists []. split; [symmetry; apply app_nil_r | constructor].
Qed.

Lemma quiet_now : ok Ev_now -> quiet ok now_utc.
Proof.
  intros He. unfold now_utc. apply quiet_bind; [apply quiet_log, He|].
  intros _. apply (quiet_read clock).
Qed.

Lemma quiet_str_encode (s : str) : quiet ok (str_encode s).
Proof. unfold str_encode. destruct (Utf8.encode s); [apply quiet_ret | apply quiet_raise]. Qed.

Lemma quiet_bytes_decode (x : bytes) : quiet ok (bytes_decode x).
Proof. unfold bytes_decode. destruct (Utf8.decode x); [apply quiet_ret | apply quiet_raise]. Qed.

Lemma quiet_open (ev : event) (p : path) : ok ev -> quiet ok (open_for_reading ev p).
Proof.
  intros He. unfold open_for_reading. apply quiet_bind; [apply quiet_log, He|].
  intros _ w r w' E. eapply quiet_lift. exact E.
Qed.

Lemma quiet_read_text (p : path) : ok (Ev_open_text p) -> quiet ok (read_text p).
Proof.
  intros He. unfold read_text.
  apply quiet_bind; [apply quiet_open, He|]. intros f.
  apply quiet_bind; [apply quiet_lift|]. intros r.
  apply quiet_bind; [apply quiet_bytes_decode|]. intros s.
  apply quiet_ret.
Qed.

Lemma quiet_compute_sha256 (n : nat) (p : path) :
  ok (Ev_open_binary p) -> quiet ok (compute_sha256_chunked n p).
Proof.
  intros He. unfold compute_sha256_chunked.
  apply quiet_bind; [apply quiet_open, He|]. intros f.
  apply quiet_bind; [apply quiet_lift|]. intros st.
  apply quiet_ret.
Qed.

End Frame.

(** ** The streaming loop of [compute_sha256] *)

Lemma read_loop_step (n : nat) (f : handle) (st : SHA256.state) :
  read_loop n f st =
  match f_read f n with
  | inl e => inl e
  | inr ([], _) => inr st
  | inr (chunk, f') => read_loop n f' (SHA256.update st chunk)
  end.
Proof.
  funelim (read_loop n f st);
    match goal with E : f_read _ _ = _ |- _ => rewrite E end; reflexivity.
Qed.

Lemma skipn_firstn_length (A : Type) (n : nat) (l : list A) :
  skipn (length (firstn n l)) l = skipn n l.
Proof.
  rewrite length_firstn. destruct (Nat.le_ge_cases n (length l)).
  - rewrite Nat.min_l by assumption. reflexivity.
  - rewrite Nat.min_r by assumption.
    rewrite !skipn_all2 by lia. reflexivity.
Qed.

(** The loop ends, whatever the positive chunk size: with the failure of
    the device if one lies ahead, otherwise having absorbed exactly the
    rest of the file. *)
Lemma read_loop_spec (n : nat) (Hn : (0 < n)%nat) : forall (m : nat) (f : handle) st,
  remaining f = m ->
  (h_pos f <= length (h_data f))%nat ->
  (length (SHA256.pending st) < 64)%nat ->
  read_loop n f st =
  if fault_ahead f then inl (OSError_EIO (h_path f))
  else inr (SHA256.update st (skipn (h_pos f) (h_data f))).
Proof.
  induction m as [m IH] using lt_wf_ind. intros f st Hm Hpos Hst.
  rewrite read_loop_step. unfold f_read, fault_ahead.
  set (rest := skipn (h_pos f) (h_data f)).
  assert (Hrest : length rest = remaining f)
    by (unfold rest, remaining; apply length_skipn).
  set (chunk := firstn n rest).
  assert (Hchunk : length chunk = Nat.min n (length rest))
    by (unfold chunk; apply length_firstn).
  assert (Hsplit : chunk ++ skipn (h_pos f + length chunk) (h_data f) = rest).
  { rewrite Nat.add_comm, <- skipn_skipn. fold rest. unfold chunk.
    rewrite skipn_firstn_length. apply firstn_skipn. }
  unfold remaining in *.
  assert (Hnext : forall k, h_fault f = k ->
            match chunk with
            | [] => inr st
            | _ :: _ =>
                read_loop n (mk_handle (h_path f) (h_data f) (h_pos f + length chunk) k)
                          (SHA256.update st chunk)
            end =
            if match k with
               | Some k => (h_pos f + length chunk <=? k)%nat && (k <? length (h_data f))%nat
               | None => false
               end
            then inl (OSError_EIO (h_path f))
            else inr (SHA256.update st rest)).
  { intros k Hk. destruct chunk as [|c cs] eqn:Ec.
    - simpl in Hchunk.
      assert (Hnil : rest = []) by (destruct rest; [reflexivity | simpl in *; lia]).
      rewrite Hnil in *. simpl in Hrest.
      rewrite SHA256Facts.update_nil by assumption.
      destruct k as [k|]; [|reflexivity].
      destruct (Nat.leb_spec (h_pos f + length (@nil byte)) k); [|reflexivity].
      destruct (Nat.ltb_spec k (length (h_data f))); [|reflexivity].
      exfalso. simpl in *. lia.
    - rewrite <- Ec in *.
      assert (Hlen : (0 < length chunk)%nat) by (rewrite Ec; simpl; lia).
      rewrite (IH (length (h_data f) - (h_pos f + length chunk))%nat);
        try (unfold remaining; simpl; lia).
      + unfold fault_ahead. simpl.
        rewrite SHA256Facts.update_app, Hsplit. reflexivity.
      + apply SHA256Facts.pending_update. }
  destruct (h_fault f) as [k|] eqn:Ek.
  - destruct (h_pos f <=? k)%nat eqn:E1; simpl.
    + destruct (k <? h_pos f + length chunk)%nat eqn:E2.
      * apply Nat.leb_le in E1. apply Nat.ltb_lt in E2.
        replace (k <? length (h_data f))%nat with true; [reflexivity|].
        symmetry. apply Nat.ltb_lt. lia.
      * rewrite (Hnext (Some k) eq_refl).
        apply Nat.ltb_ge in E2. apply Nat.leb_le in E2. rewrite E2. reflexivity.
    + rewrite (Hnext (Some k) eq_refl).
      apply Nat.leb_gt in E1.
      replace (h_pos f + length chunk <=? k)%nat with false; [reflexivity|].
      symmetry. apply Nat.leb_gt. lia.
  - apply (Hnext None eq_refl).
Qed.

Module DigestFacts.
Import SHA256.

Lemma round_length (s : list N) (kw : N * N) : length (round s kw) = length s.
Proof.
  destruct s as [|a [|b' [|c [|d [|e [|f [|g [|h [|i t]]]]]]]]]; reflexivity.
Qed.

Lemma rounds_length (l : list (N * N)) : forall s,
  length (fold_left round l s) = length s.
Proof.
  induction l as [|kw l IH]; intros s; simpl; [reflexivity|].
  rewrite IH. apply round_length.
Qed.

Lemma add_words_length (xs : list N) : forall ys,
  length ys = length xs -> length (add_words xs ys) = length xs.
Proof.
  induction xs as [|x xs IH]; intros [|y ys] H; simpl in *; try discriminate;
    [reflexivity|]. rewrite IH by lia. reflexivity.
Qed.

Lemma compress_length (h : list N) (block : bytes) :
  length (compress h block) = length h.
Proof. unfold compress. apply add_words_length, rounds_length. Qed.

Lemma blocks_length (l : list bytes) : forall h,
  length (fold_left compress l h) = length h.
Proof.
  induction l as [|x l IH]; intros h; simpl; [reflexivity|].
  rewrite IH. apply compress_length.
Qed.

Lemma words_bytes_length (ws : list N) :
  length (flat_map bytes_of_word ws) = (4 * length ws)%nat.
Proof. induction ws as [|x ws IH]; simpl; [reflexivity|]. rewrite IH. lia. Qed.

Lemma digest_of_length (m : bytes) : length (digest_of m) = 32%nat.
Proof.
  unfold digest_of. rewrite words_bytes_length, blocks_length. reflexivity.
Qed.

Lemma hex_bytes_length (x : bytes) :
  length (flat_map hex_of_byte x) = (2 * length x)%nat.
Proof. induction x as [|y x IH]; simpl; [reflexivity|]. rewrite IH. lia. Qed.

(** The hexadecimal digest has 64 characters. *)
Lemma hex_length (m : bytes) : length (hex m) = 64%nat.
Proof. unfold hex. rewrite hex_bytes_length, digest_of_length. reflexivity. Qed.

Lemma hex_digit_lower (n : N) : n < 16 -> is_lower_hex (hex_digit n) = true.
Proof.
  intros Hn. unfold is_lower_hex, hex_digit.
  destruct (N.ltb_spec n 10).
  - replace (48 <=? 48 + n) with true by (symmetry; apply N.leb_le; lia).
    replace (48 + n <=? 57) with true by (symmetry; apply N.leb_le; lia).
    reflexivity.
  - replace (97 <=? 87 + n) with true by (symmetry; apply N.leb_le; lia).
    replace (87 + n <=? 102) with true by (symmetry; apply N.leb_le; lia).
    apply orb_true_r.
Qed.

(** ... all of them lowercase hexadecimal digits. *)
Lemma hex_bytes_lower (x : bytes) :
  forallb is_lower_hex (flat_map hex_of_byte x) = true.
Proof.
  induction x as [|y x IH]; [reflexivity|].
  pose proof (Byte.to_N_bounded y).
  cbn [flat_map hex_of_byte app forallb].
  rewrite !hex_digit_lower, IH by nlia. reflexivity.
Qed.

End DigestFacts.

Lemma compute_sha256_chunked_run (n : nat) (p : path) (w : world) :
  (0 < n)%nat ->
  compute_sha256_chunked n p w =
  (checksum_outcome p (fs w p), add_trace (Ev_open_binary p) w).
Proof.
  intros Hn. unfold compute_sha256_chunked, open_rb, open_for_reading, bind, log.
  cbn [fs add_trace]. unfold checksum_outcome, open_node.
  destruct (fs w p) as [[|data [|] fault]|]; try reflexivity.
  cbn [lift ret].
  rewrite (@read_loop_spec n Hn _ _ _ eq_refl) by (simpl; lia).
  unfold fault_ahead. cbn [h_fault h_pos h_data h_path skipn].
  destruct fault as [k|]; cbn [Nat.leb andb].
  - destruct (k <? length data)%nat; [reflexivity|].
    cbn [lift ret]. unfold SHA256.hexdigest, SHA256.hex.
    rewrite SHA256Facts.digest_update. reflexivity.
  - cbn [lift ret]. unfold SHA256.hexdigest, SHA256.hex.
    rewrite SHA256Facts.digest_update. reflexivity.
Qed.

Lemma compute_sha256_run (p : path) (w : world) :
  compute_sha256 p w = (checksum_outcome p (fs w p), add_trace (Ev_open_binary p) w).
Proof. apply compute_sha256_chunked_run. lia. Qed.

(** ** Running the monad *)

Lemma bind_run A B (m : M A) (k : A -> M B) (w : world) :
  bind m k w = match m w with
               | (inr a, w1) => k a w1
               | (inl e, w1) => (inl e, w1)
               end.
Proof. reflexivity. Qed.

Lemma bind_ok A B (m : M A) (k : A -> M B) (w w1 : world) (a : A) :
  m w = (inr a, w1) -> bind m k w = k a w1.
Proof. intros E. rewrite bind_run, E. reflexivity. Qed.

Lemma bind_err A B (m : M A) (k : A -> M B) (w w1 : world) (e : exn) :
  m w = (inl e, w1) -> bind m k w = (inl e, w1).
Proof. intros E. rewrite bind_run, E. reflexivity. Qed.

Lemma bind_inv A B (m : M A) (k : A -> M B) (w w' : world) (r : exn + B) :
  bind m k w = (r, w') ->
  (exists e, m w = (inl e, w') /\ r = inl e)
  \/ (exists a w1, m w = (inr a, w1) /\ k a w1 = (r, w')).
Proof.
  rewrite bind_run. destruct (m w) as [[e|a] w1]; intros E.
  - left. exists e. inversion E; subst. split; reflexivity.
  - right. exists a, w1. split; [reflexivity | assumption].
Qed.

Lemma bytes_decode_b64 (x : bytes) (w : world) :
  bytes_decode (Base64.b64encode x) w = (inr (map Byte.to_N (Base64.b64encode x)), w).
Proof. unfold bytes_decode. rewrite Base64Facts.decode_b64encode. reflexivity. Qed.

Lemma read_text_run (p : path) (w : world) :
  read_text p w = (text_outcome p (fs w p), add_trace (Ev_open_text p) w).
Proof.
  unfold read_text, open_r, open_for_reading, text_outcome, bind, log.
  cbn [fs add_trace].
  destruct (open_node p (fs w p)) as [e|f]; [reflexivity|]. cbn [lift ret].
  destruct (f_read f (remaining f)) as [e|[data f']]; [reflexivity|]. cbn [lift ret fst].
  unfold bytes_decode. destruct (Utf8.decode data); reflexivity.
Qed.

Section ScriptFacts.

Context {ED : Ed25519} {B64 : Base64Decoder} {PL : Pathlib}.
Variable script_file : str.

Local Notation "'KEY'" := (SIGNING_KEY_PATH script_file).

Lemma generate_key_pair_result (w : world) :
  fst (generate_key_pair script_file w) = inr (mk_SigningKey (fresh_seed w)).
Proof.
  unfold generate_key_pair, SigningKey_generate, urandom, SigningKey_of_seed.
  unfold bind at 1 2 3. unfold log at 1. cbn [fst snd entropy entropy_used add_trace use_entropy].
  rewrite length_map, length_seq. cbn [Nat.eqb ret].
  unfold private_b64, verify_key_b64.
  rewrite bind_run, bytes_decode_b64.
  rewrite bind_run, bytes_decode_b64.
  reflexivity.
Qed.

Lemma load_signing_key_result (w : world) :
  fst (load_signing_key script_file w) = key_outcome script_file w.
Proof.
  unfold load_signing_key, key_outcome, path_exists.
  unfold bind at 1 2. unfold log at 1. cbn [fs add_trace].
  destruct (fs w KEY) as [node|] eqn:Ek; cbn [negb].
  - rewrite bind_run, read_text_run. cbn [fs add_trace]. rewrite Ek.
    destruct (text_outcome KEY (Some node)) as [e|text]; [reflexivity|].
    unfold key_of_text, str_encode, SigningKey_of_base64, SigningKey_of_seed.
    destruct (Utf8.encode (strip text)) as [data|]; [|reflexivity].
    rewrite bind_run. cbn [ret].
    destruct (b64decode data) as [s|]; [|reflexivity].
    destruct (length s =? 32)%nat; reflexivity.
  - rewrite bind_run. cbn [eprint reliable stderr_line]. rewrite bind_run. cbn [eprint reliable stderr_line].
    rewrite generate_key_pair_result. reflexivity.
Qed.

Section Quiet.

Variable ok : event -> Prop.
Hypothesis ok_exists : ok (Ev_exists KEY).
Hypothesis ok_open : ok (Ev_open_text KEY).
Hypothesis ok_urandom : ok (Ev_urandom 32).

Ltac quiet_step :=
  first [ apply quiet_ret | apply quiet_raise | apply quiet_eprint
        | apply quiet_str_encode | apply quiet_bytes_decode | apply quiet_lift
        | apply quiet_urandom; assumption
        | apply quiet_path_exists; assumption
        | apply quiet_read_text; assumption
        | apply quiet_bind; [|intros] ].

Lemma quiet_SigningKey_of_seed (s : bytes) : quiet ok (SigningKey_of_seed s).
Proof. unfold SigningKey_of_seed. destruct (length s =? 32)%nat; quiet_step. Qed.

Lemma quiet_SigningKey_of_base64 (data : bytes) :
  quiet ok (SigningKey_of_base64 data).
Proof.
  unfold SigningKey_of_base64.
  destruct (b64decode data); [apply quiet_SigningKey_of_seed | quiet_step].
Qed.

Lemma quiet_generate_key_pair : quiet ok (generate_key_pair script_file).
Proof.
  unfold generate_key_pair, SigningKey_generate.
  repeat first [ apply quiet_SigningKey_of_seed | quiet_step ].
Qed.

Lemma quiet_load_signing_key : quiet ok (load_signing_key script_file).
Proof.
  unfold load_signing_key. quiet_step; [quiet_step|].
  destruct (negb a).
  - repeat first [ apply quiet_generate_key_pair | quiet_step ].
  - repeat first [ apply quiet_SigningKey_of_base64 | quiet_step ].
Qed.

End Quiet.

Lemma key_outcome_frame (ok : event -> Prop) (w w' : world) :
  frame ok w w' -> entropy_used w' = entropy_used w -> key_outcome script_file w' = key_outcome script_file w.
Proof.
  intros F U. unfold key_outcome, fresh_seed.
  rewrite (fr_fs F), (fr_entropy F), U. reflexivity.
Qed.

Lemma allowed_key_exists zip : allowed script_file zip (Ev_exists KEY).
Proof. unfold allowed. tauto. Qed.
Lemma allowed_key_open zip : allowed script_file zip (Ev_open_text KEY).
Proof. unfold allowed. tauto. Qed.
Lemma allowed_urandom zip : allowed script_file zip (Ev_urandom 32).
Proof. unfold allowed. tauto. Qed.
Lemma allowed_zip_exists zip : allowed script_file zip (Ev_exists zip).
Proof. unfold allowed. tauto. Qed.
Lemma allowed_zip_open zip : allowed script_file zip (Ev_open_binary zip).
Proof. unfold allowed. tauto. Qed.
Lemma allowed_now zip : allowed script_file zip Ev_now.
Proof. unfold allowed. tauto. Qed.

Lemma frame_add_trace (ok : event -> Prop) (e : event) (w : world) :
  ok e -> frame ok w (add_trace e w).
Proof. intros He. exact (@quiet_log ok e He w (inr tt) _ eq_refl). Qed.

Lemma frame_add_stderr (ok : event -> Prop) (s : str) (w : world) :
  frame ok w (add_stderr (s ++ nl) w).
Proof. exact (@quiet_eprint ok s w (inr tt) _ eq_refl). Qed.

Lemma add_stderr_twice (x y : str) (w : world) :
  add_stderr y (add_stderr x w) = add_stderr (x ++ y) w.
Proof. unfold add_stderr. cbn. rewrite app_assoc. reflexivity. Qed.

(** The whole of [sign_release]: up to the JSON it only adds to the
    diagnostic channel and to the record of system calls; it then prints
    the JSON and the confirmation, or stops with an exception. *)
Lemma sign_release_run (version zip_path_arg : str) (w : world) :
  exists w1, frame (allowed script_file (Path zip_path_arg)) w w1 /\
    sign_release script_file version zip_path_arg w =
    match release_outcome script_file version zip_path_arg w with
    | inl e => (inl e, w1)
    | inr (json, report) => (inr tt, add_stderr report (add_stdout (json ++ nl) w1))
    end.
Proof.
  set (zip := Path zip_path_arg).
  assert (F0 : frame (allowed script_file zip) w (add_trace (Ev_exists zip) w))
    by apply frame_add_trace, allowed_zip_exists.
  unfold sign_release, release_outcome, verify_key_b64, sign_b64. fold zip.
  unfold path_exists. unfold bind at 1 2. unfold log at 1. cbn [fs add_trace].
  destruct (fs w zip) as [node|] eqn:Ez; cbn [negb].
  2:{ eexists. split; [|reflexivity].
      eapply frame_trans; [exact F0 | apply frame_add_stderr]. }
  unfold bind at 1. cbn [ret].
  rewrite bind_run.
  pose proof (load_signing_key_result (add_trace (Ev_exists zip) w)) as Hk.
  pose proof (@quiet_load_signing_key (allowed script_file zip) (allowed_key_exists zip)
                (allowed_key_open zip) (allowed_urandom zip)
                (add_trace (Ev_exists zip) w)) as Fk.
  change (key_outcome script_file (add_trace (Ev_exists zip) w)) with (key_outcome script_file w) in Hk.
  destruct (load_signing_key script_file (add_trace (Ev_exists zip) w))
    as [rk wa] eqn:Ek.
  specialize (Fk _ _ eq_refl). cbn [fst] in Hk. rewrite <- Hk.
  assert (Fa : frame (allowed script_file zip) w wa) by (eapply frame_trans; eassumption).
  destruct rk as [e|key].
  { exists wa. split; [assumption | reflexivity]. }
  rewrite bind_run, bytes_decode_b64.
  rewrite bind_run, compute_sha256_run. rewrite (fr_fs Fa), Ez.
  set (wb := add_trace (Ev_open_binary zip) wa).
  assert (Fb : frame (allowed script_file zip) w wb).
  { eapply frame_trans; [exact Fa | apply frame_add_trace, allowed_zip_open]. }
  destruct (checksum_outcome zip (Some node)) as [e|sha256].
  { exists wb. split; [assumption | reflexivity]. }
  unfold now_utc. unfold bind at 1 2. unfold log at 1. cbn [clock add_trace].
  fold (add_trace Ev_now wb). set (wc := add_trace Ev_now wb).
  assert (Fc : frame (allowed script_file zip) w wc).
  { eapply frame_trans; [exact Fb | apply frame_add_trace, allowed_now]. }
  replace (clock wb) with (clock w) by (symmetry; apply (fr_clock Fb)).
  rewrite bind_run. unfold str_encode.
  destruct (Utf8.encode _) as [m|].
  2:{ exists wc. split; [assumption | reflexivity]. }
  cbn [ret]. rewrite bind_run, bytes_decode_b64.
  exists wc. split; [assumption|].
  reliable_channels. unfold bind, stdout_line, stderr_line, summary, fallback_changelog. f_equal.
  rewrite !add_stderr_twice. f_equal.
  rewrite <- !app_assoc. reflexivity.
Qed.

(** With a key file in place, loading checks that it exists, reads it
    as text and does nothing else. *)
Lemma load_signing_key_existing (w : world) (node : node) :
  fs w KEY = Some node ->
  load_signing_key script_file w =
  (key_outcome script_file w, add_trace (Ev_open_text KEY) (add_trace (Ev_exists KEY) w)).
Proof.
  intros Ek. unfold load_signing_key, key_outcome, path_exists.
  unfold bind at 1 2. unfold log at 1. cbn [fs add_trace].
  rewrite Ek. cbn [negb].
  rewrite bind_run, read_text_run. cbn [fs add_trace]. rewrite Ek.
  destruct (text_outcome KEY (Some node)) as [e|text]; [reflexivity|].
  unfold key_of_text, str_encode, SigningKey_of_base64, SigningKey_of_seed.
  destruct (Utf8.encode (strip text)) as [data|]; [|reflexivity].
  rewrite bind_run. cbn [ret].
  destruct (b64decode data) as [s|]; [|reflexivity].
  destruct (length s =? 32)%nat; reflexivity.
Qed.

Lemma script_run (argv : list str) (w : world) :
  exists w1, frame (allowed script_file (Path (nth 2 argv []))) w w1 /\
    script script_file argv w =
    match run_outcome script_file argv w with
    | inl e => (inl e, w1)
    | inr (json, report) => (inr tt, add_stderr report (add_stdout (json ++ nl) w1))
    end.
Proof.
  unfold script, run_outcome, main.
  destruct (pynacl_installed w); cbn [negb].
  - destruct (length argv <? 3)%nat.
    + eexists. split; [|reflexivity].
      eapply frame_trans; apply frame_add_stderr.
    + apply sign_release_run.
  - eexists. split; [|reflexivity]. apply frame_add_stderr.
Qed.

Lemma python_run (argv : list str) (w : world) :
  exists w1, frame (allowed script_file (Path (nth 2 argv []))) w w1 /\
    python script_file argv w =
    match run_outcome script_file argv w with
    | inl e =>
        (status_of e,
         match e with SystemExit _ => w1 | _ => add_stderr (traceback e) w1 end)
    | inr (json, report) => (0, add_stderr report (add_stdout (json ++ nl) w1))
    end.
Proof.
  destruct (script_run argv w) as [w1 [F E]]. exists w1. split; [assumption|].
  unfold python. rewrite E.
  destruct (run_outcome script_file argv w) as [e|[json report]]; [|reflexivity].
  destruct e; reflexivity.
Qed.

Lemma text_outcome_not_exit (p : path) (o : option node) (code : N) :
  text_outcome p o <> inl (SystemExit code).
Proof.
  unfold text_outcome, open_node, f_read.
  destruct o as [[|data [|] [k|]]|]; cbn [h_fault h_pos h_data h_path remaining];
    try discriminate.
  - destruct (_ && _); [discriminate|]. destruct (Utf8.decode _); discriminate.
  - destruct (Utf8.decode _); discriminate.
Qed.

Lemma key_of_text_not_exit (text : str) (code : N) :
  key_of_text text <> inl (SystemExit code).
Proof.
  unfold key_of_text. destruct (Utf8.encode _); [|discriminate].
  destruct (b64decode _); [|discriminate].
  destruct (_ =? _)%nat; discriminate.
Qed.

Lemma key_outcome_not_exit (w : world) (code : N) :
  key_outcome script_file w <> inl (SystemExit code).
Proof.
  unfold key_outcome. destruct (fs w KEY) as [node|]; [|discriminate].
  pose proof (@text_outcome_not_exit KEY (Some node) code).
  destruct (text_outcome KEY (Some node)); [congruence|].
  apply key_of_text_not_exit.
Qed.

Lemma checksum_outcome_not_exit (p : path) (o : option node) (code : N) :
  checksum_outcome p o <> inl (SystemExit code).
Proof.
  unfold checksum_outcome. destruct o as [[|data [|] fault]|]; try discriminate.
  destruct (match fault with Some _ => _ | None => _ end); discriminate.
Qed.

(** Every exception that ends a run gives a non-zero exit status. *)
Lemma run_outcome_status (argv : list str) (w : world) (e : exn) :
  run_outcome script_file argv w = inl e -> status_of e = 1.
Proof.
  unfold run_outcome, release_outcome.
  destruct (negb _); [intros E; inversion E; reflexivity|].
  destruct (_ <? _)%nat; [intros E; inversion E; reflexivity|].
  destruct (fs w _); [|intros E; inversion E; reflexivity].
  pose proof (key_outcome_not_exit w) as Hk.
  destruct (key_outcome script_file w) as [e1|key].
  { intros E; inversion E; subst. destruct e; try reflexivity.
    exfalso. eapply Hk. reflexivity. }
  match goal with |- context [checksum_outcome ?p ?o] =>
    pose proof (@checksum_outcome_not_exit p o) as Hc;
    destruct (checksum_outcome p o) as [e2|sha256] end.
  { intros E; inversion E; subst. destruct e; try reflexivity.
    exfalso. eapply Hc. reflexivity. }
  cbv zeta. destruct (Utf8.encode _); intros E; inversion E. reflexivity.
Qed.

Lemma run_outcome_printed (argv : list str) (w : world) (json report : str) :
  run_outcome script_file argv w = inr (json, report) ->
  let version := nth 1 argv [] in
  let zip := Path (nth 2 argv []) in
  let download_url := DOWNLOAD_BASE_URL ++ u "/" ++ path_name zip in
  let released_at := strftime (clock w) in
  exists key sha256 m,
    key_outcome script_file w = inr key
    /\ checksum_outcome zip (fs w zip) = inr sha256
    /\ Utf8.encode (canonical_message version download_url sha256 released_at) = Some m
    /\ json = Json.dumps_indent2
                (update_info version download_url sha256 released_at
                   (map Byte.to_N (sign_b64 key m))
                   (dict_get CHANGELOG version (fallback_changelog version)))
    /\ report = summary version sha256 (map Byte.to_N (verify_key_b64 key)) released_at.
Proof.
  unfold run_outcome, release_outcome. cbv zeta.
  destruct (negb _); [discriminate|].
  destruct (_ <? _)%nat; [discriminate|].
  destruct (fs w (Path (nth 2 argv []))) as [node|]; [|discriminate].
  destruct (key_outcome script_file w) as [e|key]; [discriminate|].
  destruct (checksum_outcome _ _) as [e|sha256]; [discriminate|].
  destruct (Utf8.encode _) as [m|] eqn:Em; [|discriminate].
  intros E. inversion E; subst. exists key, sha256, m. repeat split. exact Em.
Qed.


(** C4. When the archive does not exist, [sign_release] stops with exit
    status 1 after reporting that the ZIP file was not found.  Its only
    system call is the existence check of the archive: the key file is
    neither looked for nor opened, no random bytes are drawn, nothing goes
    to the primary channel. *)
Theorem sign_release_archive_not_found :
  forall (version zip_path_arg : str) (w : world),
    fs w (Path zip_path_arg) = None ->
    let zip := Path zip_path_arg in
    let r := sign_release script_file version zip_path_arg w in
    fst r = inl (SystemExit 1)
    /\ stderr (snd r) = stderr w ++ u "Error: ZIP file not found: " ++ zip ++ nl
    /\ stdout (snd r) = stdout w
    /\ trace (snd r) = trace w ++ [Ev_exists zip]
    /\ entropy_used (snd r) = entropy_used w
    /\ fs (snd r) = fs w.
Proof.
  intros version zip_path_arg w Hz. cbv zeta.
  assert (E : sign_release script_file version zip_path_arg w
              = (inl (SystemExit 1),
                 add_stderr ((u "Error: ZIP file not found: " ++ Path zip_path_arg) ++ nl)
                            (add_trace (Ev_exists (Path zip_path_arg)) w))).
  { unfold sign_release, path_exists.
    unfold bind at 1 2. unfold log at 1. cbn [fs add_trace].
    rewrite Hz. reflexivity. }
  rewrite E. cbn [fst snd stderr stdout trace entropy_used fs add_stderr add_trace].
  rewrite <- app_assoc. repeat split.
Qed.

(** On the reliable channels a run either exits with status 0 having added
    one complete JSON descriptor (a text that reads back as an object
    with the twelve keys) to the primary channel, or exits with status 1
    having added nothing to it.  Missing arguments, a missing archive and
    a key that does not load each give status 1. *)
Lemma python_all_or_nothing :
  forall (argv : list str) (w : world),
    let status := fst (python script_file argv w) in
    let w' := snd (python script_file argv w) in
    ((status = 0
      /\ exists d, map fst d = descriptor_keys
                   /\ JsonReader.read_object (Json.dumps_indent2 d)
                      = Some (map JsonReader.as_units d)
                   /\ stdout w' = stdout w ++ Json.dumps_indent2 d ++ nl)
     \/ (status = 1 /\ stdout w' = stdout w))
    /\ ((length argv < 3)%nat -> status = 1)
    /\ (fs w (Path (nth 2 argv [])) = None -> status = 1)
    /\ (forall e, fst (load_signing_key script_file w) = inl e -> status = 1).
Proof.
  intros argv w. cbv zeta.
  destruct (python_run argv w) as [w1 [F E]]. rewrite E. clear E.
  assert (Hstatus : forall e, run_outcome script_file argv w = inl e ->
            fst (match run_outcome script_file argv w with
                 | inl e =>
                     (status_of e,
                      match e with
                      | SystemExit _ => w1
                      | _ => add_stderr (traceback e) w1
                      end)
                 | inr (json, report) =>
                     (0, add_stderr report (add_stdout (json ++ nl) w1))
                 end) = 1).
  { intros e Er. rewrite Er. cbn [fst]. exact (run_outcome_status _ _ Er). }
  split; [|repeat split].
  - destruct (run_outcome script_file argv w) as [e|[json report]] eqn:Er.
    + right. split; [exact (Hstatus e eq_refl)|].
      rewrite <- (fr_stdout F). destruct e; reflexivity.
    + left. split; [reflexivity|].
      apply run_outcome_printed in Er. cbv zeta in Er.
      destruct Er as [key [sha256 [m [_ [_ [_ [-> _]]]]]]].
      match goal with |- context [Json.dumps_indent2 ?d] => exists d end.
      split; [reflexivity|].
      split; [apply JsonReaderFacts.read_object_dumps|].
      cbn [snd stdout add_stderr add_stdout]. rewrite (fr_stdout F). reflexivity.
  - intros Hlen. apply (Hstatus (SystemExit 1)). unfold run_outcome.
    destruct (negb _); [reflexivity|].
    apply Nat.ltb_lt in Hlen. rewrite Hlen. reflexivity.
  - intros Hz. apply (Hstatus (SystemExit 1)). unfold run_outcome, release_outcome.
    destruct (negb _); [reflexivity|].
    destruct (_ <? _)%nat; [reflexivity|]. rewrite Hz. reflexivity.
  - intros e He. rewrite load_signing_key_result in He.
    unfold run_outcome, release_outcome in *.
    destruct (negb _); [apply (Hstatus (SystemExit 1)); reflexivity|].
    destruct (_ <? _)%nat; [apply (Hstatus (SystemExit 1)); reflexivity|].
    destruct (fs w (Path (nth 2 argv []))); [|apply (Hstatus (SystemExit 1)); reflexivity].
    rewrite He in *. apply (Hstatus e). reflexivity.
Qed.

Lemma text_outcome_text (p : path) (nd : node) (text : str) :
  text_outcome p (Some nd) = inr text ->
  exists content fault raw,
    nd = File content true fault
    /\ Utf8.decode content = Some raw
    /\ text = universal_newlines raw.
Proof.
  unfold text_outcome, open_node, f_read, remaining.
  destruct nd as [|content [|] fault]; try discriminate.
  cbn [h_fault h_pos h_data h_path skipn].
  rewrite Nat.sub_0_r, firstn_all.
  intros E. exists content, fault.
  destruct fault as [k|];
    [destruct (_ && _); [discriminate|]|];
    cbn [fst] in E; destruct (Utf8.decode content) as [raw|]; try discriminate;
    exists raw; inversion E; repeat split.
Qed.

Lemma key_outcome_key (w : world) (nd : node) (key : SigningKey) :
  fs w KEY = Some nd ->
  key_outcome script_file w = inr key ->
  exists content fault,
    nd = File content true fault /\ key_file_decodes content (seed key).
Proof.
  intros Ek. unfold key_outcome. rewrite Ek.
  destruct (text_outcome KEY (Some nd)) as [e|text] eqn:Et; [discriminate|].
  destruct (text_outcome_text _ _ Et) as [content [fault [raw [-> [Hraw ->]]]]].
  unfold key_of_text.
  destruct (Utf8.encode _) as [data|] eqn:Ed; [|discriminate].
  destruct (b64decode data) as [s|] eqn:Es; [|discriminate].
  destruct (length s =? 32)%nat eqn:El; [|discriminate].
  intros E. inversion E; subst. exists content, fault. split; [reflexivity|].
  exists raw, data. cbn [seed]. repeat split; try assumption.
  apply Nat.eqb_eq. exact El.
Qed.

(** With the archive and a key file in place, a key that fails to load
    ends the run on the spot. *)
Lemma python_key_error (argv : list str) (w : world) (nd : node) (e : exn) :
  pynacl_installed w = true ->
  (3 <= length argv)%nat ->
  fs w (Path (nth 2 argv [])) <> None ->
  fs w KEY = Some nd ->
  key_outcome script_file w = inl e ->
  python script_file argv w =
  (1, add_stderr (traceback e)
        (add_trace (Ev_open_text KEY)
           (add_trace (Ev_exists KEY)
              (add_trace (Ev_exists (Path (nth 2 argv []))) w)))).
Proof.
  intros Hp Hlen Hz Ek He.
  unfold python, script. rewrite Hp. unfold main.
  replace (length argv <? 3)%nat with false by (symmetry; apply Nat.ltb_ge; lia).
  unfold sign_release, path_exists.
  unfold bind at 1 2. unfold log at 1. cbn [fs add_trace].
  destruct (fs w (Path (nth 2 argv []))) as [zn|]; [|congruence].
  cbn [negb]. unfold bind at 1. cbn [ret].
  rewrite bind_run.
  rewrite (@load_signing_key_existing (add_trace (Ev_exists (Path (nth 2 argv []))) w) nd Ek).
  change (key_outcome script_file (add_trace (Ev_exists (Path (nth 2 argv []))) w))
    with (key_outcome script_file w).
  rewrite He. pose proof (key_outcome_not_exit w) as Hn. rewrite He in Hn.
  destruct e; try reflexivity. exfalso. eapply Hn. reflexivity.
Qed.

(** C8. With a key file in place, [load_signing_key] returns a key only
    if the file is readable text whose stripped content is the base64
    encoding of 32 bytes, and the key it returns has exactly those bytes
    as its seed.  A file that does not decode this way raises an
    exception that nothing catches: the run ends with status 1 and the
    exception on the diagnostic channel, before the archive is opened and
    with nothing on the primary channel. *)
Theorem malformed_key_fails :
  forall (w : world) (nd : node),
    fs w KEY = Some nd ->
    (forall key, fst (load_signing_key script_file w) = inr key ->
       exists content fault,
         nd = File content true fault /\ key_file_decodes content (seed key))
    /\ ((forall content fault s,
           nd = File content true fault -> ~ key_file_decodes content s) ->
        exists e,
          fst (load_signing_key script_file w) = inl e
          /\ (forall code, e <> SystemExit code)
          /\ forall argv,
               pynacl_installed w = true ->
               (3 <= length argv)%nat ->
               fs w (Path (nth 2 argv [])) <> None ->
               let r := python script_file argv w in
               fst r = 1
               /\ stdout (snd r) = stdout w
               /\ stderr (snd r) = stderr w ++ traceback e
               /\ trace (snd r)
                  = trace w ++ [Ev_exists (Path (nth 2 argv [])); Ev_exists KEY;
                                Ev_open_text KEY]).
Proof.
  intros w nd Ek. rewrite load_signing_key_result. split.
  - intros key Hkey. exact (key_outcome_key _ Ek Hkey).
  - intros Hbad. destruct (key_outcome script_file w) as [e|key] eqn:Ho.
    + exists e. split; [reflexivity|]. split.
      * intros code Hc. subst e. exact (key_outcome_not_exit _ Ho).
      * intros argv Hp Hlen Hz. cbv zeta.
        rewrite (@python_key_error argv w nd e Hp Hlen Hz Ek Ho).
        cbn [fst snd stdout stderr trace add_stderr add_trace].
        rewrite <- !app_assoc. repeat split.
    + exfalso. destruct (key_outcome_key _ Ek Ho) as [content [fault [-> Hd]]].
      exact (Hbad content fault (seed key) eq_refl Hd).
Qed.

(** C9. When no key file exists, loading returns a key made from fresh
    random bytes and leaves the file system as it was: there is still no
    file at the key path.  A whole run changes nothing in the file system;
    its system calls are the existence checks and reads of the archive and
    of the key file, a draw of 32 random bytes and a reading of the clock. *)
Theorem signing_mutates_nothing :
  forall (argv : list str) (w : world),
    (fs w KEY = None ->
       let r := load_signing_key script_file w in
       fst r = inr (mk_SigningKey (fresh_seed w))
       /\ fs (snd r) = fs w
       /\ fs (snd r) KEY = None)
    /\ (let w' := snd (python script_file argv w) in
        fs w' = fs w
        /\ exists t, trace w' = trace w ++ t
                     /\ Forall (allowed script_file (Path (nth 2 argv []))) t).
Proof.
  intros argv w. split.
  - intros Ek. cbv zeta.
    assert (F : frame (allowed script_file KEY) w (snd (load_signing_key script_file w))).
    { destruct (load_signing_key script_file w) as [r w'] eqn:E.
      exact (@quiet_load_signing_key (allowed script_file KEY) (allowed_key_exists KEY)
               (allowed_key_open KEY) (allowed_urandom KEY) _ _ _ E). }
    rewrite load_signing_key_result. unfold key_outcome. rewrite Ek.
    repeat split.
    + exact (fr_fs F).
    + rewrite (fr_fs F). exact Ek.
  - cbv zeta. destruct (python_run argv w) as [w1 [F E]]. rewrite E. clear E.
    assert (Hw : forall w2, fs w2 = fs w1 -> trace w2 = trace w1 ->
               fs w2 = fs w /\ exists t, trace w2 = trace w ++ t
                     /\ Forall (allowed script_file (Path (nth 2 argv []))) t).
    { intros w2 Hf Ht. rewrite Hf, Ht. split; [exact (fr_fs F) | exact (fr_trace F)]. }
    destruct (run_outcome script_file argv w) as [e|[json report]]; [destruct e|];
      apply Hw; reflexivity.
Qed.

Lemma universal_newlines_id (s : str) :
  forallb (fun c => negb (c =? 13)) s = true -> universal_newlines s = s.
Proof.
  induction s as [|c s IH]; [reflexivity|].
  cbn [forallb universal_newlines]. intros H. apply andb_prop in H.
  destruct H as [Hc Hs]. destruct (c =? 13); [discriminate|].
  rewrite IH by assumption. reflexivity.
Qed.

Lemma text_outcome_plain (p : path) (content : bytes) (raw : str) :
  Utf8.decode content = Some raw ->
  text_outcome p (Some (File content true None)) = inr (universal_newlines raw).
Proof.
  intros E. unfold text_outcome, open_node, f_read, remaining.
  cbn [h_fault h_pos h_data h_path skipn fst].
  rewrite Nat.sub_0_r, firstn_all, E. reflexivity.
Qed.

(** The same at the level of the bytes on disk, for text without carriage
    returns: the file holding the encoding of [ws ++ t ++ ws'] loads as
    the file holding the encoding of [t]. *)
Lemma padded_key_file_loads (w1 w2 : world) (ws t ws' : str) (c1 c2 : bytes) :
  forallb isspace ws = true -> forallb isspace ws' = true ->
  forallb (fun c => negb (c =? 13)) (ws ++ t ++ ws') = true ->
  Utf8.encode (ws ++ t ++ ws') = Some c1 -> Utf8.encode t = Some c2 ->
  fs w1 KEY = Some (File c1 true None) -> fs w2 KEY = Some (File c2 true None) ->
  fst (load_signing_key script_file w1) = fst (load_signing_key script_file w2).
Proof.
  intros Hws Hws' Hcr E1 E2 F1 F2.
  rewrite !load_signing_key_result. unfold key_outcome. rewrite F1, F2.
  rewrite (@text_outcome_plain KEY c1 _ (Utf8Facts.decode_encode _ E1)).
  rewrite (@text_outcome_plain KEY c2 _ (Utf8Facts.decode_encode _ E2)).
  rewrite !universal_newlines_id; try assumption.
  - unfold key_of_text. rewrite strip_surrounded by assumption. reflexivity.
  - rewrite !forallb_app in Hcr. apply andb_prop in Hcr. destruct Hcr as [_ Hcr].
    apply andb_prop in Hcr. tauto.
Qed.

End ScriptFacts.

(** ** The canonical message *)

Lemma slice_middle (A : Type) (pre x post : list A) :
  slice (length pre) (length x) (pre ++ x ++ post) = x.
Proof.
  unfold slice. rewrite skipn_app, skipn_all, Nat.sub_diag. simpl.
  rewrite firstn_app, firstn_all, Nat.sub_diag. simpl. apply app_nil_r.
Qed.

Lemma encode_canonical_message (v d s r : str) (bv bd bs br : bytes) :
  Utf8.encode v = Some bv -> Utf8.encode d = Some bd ->
  Utf8.encode s = Some bs -> Utf8.encode r = Some br ->
  Utf8.encode (canonical_message v d s r) = Some (canonical_bytes bv bd bs br).
Proof.
  intros Ev Ed Es Er. unfold canonical_message, canonical_bytes, canonical_line.
  repeat (rewrite Utf8Facts.encode_app;
          try rewrite Ev; try rewrite Ed; try rewrite Es; try rewrite Er).
  change (Utf8.encode nl) with (Some [x0a]).
  change (Utf8.encode (u "version=")) with (Some (b "version" ++ b "=")).
  change (Utf8.encode (u "download_url=")) with (Some (b "download_url" ++ b "=")).
  change (Utf8.encode (u "sha256=")) with (Some (b "sha256" ++ b "=")).
  change (Utf8.encode (u "released_at=")) with (Some (b "released_at" ++ b "=")).
  cbv beta iota. rewrite <- !app_assoc. reflexivity.
Qed.

Lemma split_at_newline (x : str) : forall (y r r' : str),
  single_line x = true -> single_line y = true ->
  x ++ nl ++ r = y ++ nl ++ r' -> x = y /\ r = r'.
Proof.
  induction x as [|c x IH]; intros [|d y] r r' Hx Hy E; simpl in *.
  - inversion E. split; reflexivity.
  - inversion E; subst d. rewrite N.eqb_refl in Hy. discriminate.
  - inversion E; subst c. rewrite N.eqb_refl in Hx. discriminate.
  - apply andb_prop in Hx. apply andb_prop in Hy.
    destruct Hx as [_ Hx]. destruct Hy as [_ Hy].
    inversion E as [[Hc Et]]. subst d.
    destruct (IH y r r' Hx Hy Et) as [Ex Er]. subst. split; reflexivity.
Qed.

(** Field values without line breaks can be read back from the message:
    no two such tuples of fields give the same message. *)
Lemma canonical_message_unambiguous (v d s r v' d' s' r' : str) :
  single_line v = true -> single_line d = true ->
  single_line s = true -> single_line r = true ->
  single_line v' = true -> single_line d' = true ->
  single_line s' = true -> single_line r' = true ->
  canonical_message v d s r = canonical_message v' d' s' r' ->
  v = v' /\ d = d' /\ s = s' /\ r = r'.
Proof.
  intros Hv Hd Hs Hr Hv' Hd' Hs' Hr' E. unfold canonical_message in E.
  apply app_inv_head in E.
  apply split_at_newline in E; [|assumption|assumption]. destruct E as [-> E].
  apply app_inv_head in E.
  apply split_at_newline in E; [|assumption|assumption]. destruct E as [-> E].
  apply app_inv_head in E.
  apply split_at_newline in E; [|assumption|assumption]. destruct E as [-> E].
  apply app_inv_head in E. apply app_inv_tail in E. subst. repeat split.
Qed.

(** Nothing is escaped: with a line break inside a value, two different
    tuples of fields can give the same message. *)
Lemma canonical_message_newline_ambiguity (s r : str) :
  canonical_message (u "1" ++ nl ++ u "download_url=x") (u "y") s r
  = canonical_message (u "1") (u "x" ++ nl ++ u "download_url=y") s r.
Proof. reflexivity. Qed.

(** C2. The canonical message is exactly the four lines
    [version=..], [download_url=..], [sha256=..], [released_at=..], each
    ended by a newline, in that order and with nothing else; it is a
    function of the four fields, changing any single field changes the
    bytes, and every value sits at its own offset of the message. *)
Theorem canonical_message_exact :
  forall (v d s r : str) (bv bd bs br : bytes),
    Utf8.encode v = Some bv -> Utf8.encode d = Some bd ->
    Utf8.encode s = Some bs -> Utf8.encode r = Some br ->
    let m := canonical_bytes bv bd bs br in
    Utf8.encode (canonical_message v d s r) = Some m
    /\ m = b "version=" ++ bv ++ [x0a] ++ b "download_url=" ++ bd ++ [x0a]
           ++ b "sha256=" ++ bs ++ [x0a] ++ b "released_at=" ++ br ++ [x0a]
    /\ (forall v', v' <> v -> Utf8.encode (canonical_message v' d s r) <> Some m)
    /\ (forall d', d' <> d -> Utf8.encode (canonical_message v d' s r) <> Some m)
    /\ (forall s', s' <> s -> Utf8.encode (canonical_message v d s' r) <> Some m)
    /\ (forall r', r' <> r -> Utf8.encode (canonical_message v d s r') <> Some m)
    /\ slice 8 (length bv) m = bv
    /\ slice (22 + length bv) (length bd) m = bd
    /\ slice (30 + length bv + length bd) (length bs) m = bs
    /\ slice (43 + length bv + length bd + length bs) (length br) m = br.
Proof.
  intros v d s r bv bd bs br Ev Ed Es Er m.
  pose proof (encode_canonical_message _ _ _ _ Ev Ed Es Er) as Em. fold m in Em.
  assert (Hm : m = b "version=" ++ bv ++ [x0a] ++ b "download_url=" ++ bd ++ [x0a]
                    ++ b "sha256=" ++ bs ++ [x0a] ++ b "released_at=" ++ br ++ [x0a]).
  { unfold m, canonical_bytes, canonical_line. rewrite <- !app_assoc. reflexivity. }
  split; [exact Em|]. split; [exact Hm|].
  repeat split.
  - intros v' Hv E. apply Hv.
    pose proof (Utf8Facts.encode_inj _ _ E Em) as Ec. unfold canonical_message in Ec.
    repeat apply app_inv_head in Ec. apply app_inv_tail in Ec. exact Ec.
  - intros d' Hd E. apply Hd.
    pose proof (Utf8Facts.encode_inj _ _ E Em) as Ec. unfold canonical_message in Ec.
    repeat apply app_inv_head in Ec. apply app_inv_tail in Ec. exact Ec.
  - intros s' Hs E. apply Hs.
    pose proof (Utf8Facts.encode_inj _ _ E Em) as Ec. unfold canonical_message in Ec.
    repeat apply app_inv_head in Ec. apply app_inv_tail in Ec. exact Ec.
  - intros r' Hr E. apply Hr.
    pose proof (Utf8Facts.encode_inj _ _ E Em) as Ec. unfold canonical_message in Ec.
    repeat apply app_inv_head in Ec. apply app_inv_tail in Ec. exact Ec.
  - rewrite Hm. exact (slice_middle (b "version=") bv _).
  - rewrite Hm.
    replace (22 + length bv)%nat
      with (length (b "version=" ++ bv ++ [x0a] ++ b "download_url="))
      by (rewrite !length_app; simpl; lia).
    rewrite <- (slice_middle (b "version=" ++ bv ++ [x0a] ++ b "download_url=") bd
                  ([x0a] ++ b "sha256=" ++ bs ++ [x0a] ++ b "released_at=" ++ br ++ [x0a]))
      at 3.
    rewrite <- !app_assoc. reflexivity.
  - rewrite Hm.
    replace (30 + length bv + length bd)%nat
      with (length (b "version=" ++ bv ++ [x0a] ++ b "download_url=" ++ bd ++ [x0a]
                      ++ b "sha256="))
      by (rewrite !length_app; simpl; lia).
    rewrite <- (slice_middle (b "version=" ++ bv ++ [x0a] ++ b "download_url=" ++ bd
                                ++ [x0a] ++ b "sha256=") bs
                  ([x0a] ++ b "released_at=" ++ br ++ [x0a])) at 3.
    rewrite <- !app_assoc. reflexivity.
  - rewrite Hm.
    replace (43 + length bv + length bd + length bs)%nat
      with (length (b "version=" ++ bv ++ [x0a] ++ b "download_url=" ++ bd ++ [x0a]
                      ++ b "sha256=" ++ bs ++ [x0a] ++ b "released_at="))
      by (rewrite !length_app; simpl; lia).
    rewrite <- (slice_middle (b "version=" ++ bv ++ [x0a] ++ b "download_url=" ++ bd
                                ++ [x0a] ++ b "sha256=" ++ bs ++ [x0a]
                                ++ b "released_at=") br [x0a]) at 3.
    rewrite <- !app_assoc. reflexivity.
Qed.

(** ** The checksum *)

(** C7. For a readable file the digest is the lowercase hexadecimal
    SHA-256 of its content, equal to the reference digest computed in one
    piece (the empty file gives the well-known value); it is the same for
    every positive chunk size and for every environment holding the same
    file, so repeated runs agree. *)
Theorem compute_sha256_reference_digest :
  forall (w : world) (p : path) (content : bytes) (fault : option nat) (n : nat),
    fs w p = Some (File content true fault) ->
    (forall k, fault = Some k -> (length content <= k)%nat) ->
    (0 < n)%nat ->
    fst (compute_sha256 p w) = inr (SHA256.hex content)
    /\ fst (compute_sha256_chunked n p w) = fst (compute_sha256 p w)
    /\ length (SHA256.hex content) = 64%nat
    /\ forallb is_lower_hex (SHA256.hex content) = true
    /\ (content = [] ->
        fst (compute_sha256 p w)
        = inr (u "e3b0c44298fc1c149afbf4c8996fb92427ae41e4649b934ca495991b7852b855"))
    /\ (forall w2, fs w2 p = fs w p ->
        fst (compute_sha256 p w2) = fst (compute_sha256 p w)).
Proof.
  intros w p content fault n Hf Hfault Hn.
  assert (Hout : checksum_outcome p (fs w p) = inr (SHA256.hex content)).
  { rewrite Hf. unfold checksum_outcome. destruct fault as [k|]; [|reflexivity].
    specialize (Hfault k eq_refl).
    destruct (Nat.ltb_spec k (length content)); [lia | reflexivity]. }
  rewrite compute_sha256_run, compute_sha256_chunked_run by assumption.
  cbn [fst]. repeat split.
  - exact Hout.
  - apply DigestFacts.hex_length.
  - apply DigestFacts.hex_bytes_lower.
  - intros ->. rewrite Hout. vm_compute. reflexivity.
  - intros w2 E. rewrite compute_sha256_run, E. reflexivity.
Qed.

(** C6, as the code has it. A path that does not exist fails with the
    file-not-found condition; a directory fails with the is-a-directory
    condition and an unreadable file with the permission condition, both
    raised by [open] as well; none of the three is the I/O error of a read
    that fails part-way. *)
Theorem compute_sha256_failure_kinds :
  forall (w : world) (p : path),
    (fs w p = None -> fst (compute_sha256 p w) = inl (FileNotFoundError p))
    /\ (fs w p = Some Dir -> fst (compute_sha256 p w) = inl (IsADirectoryError p))
    /\ (forall c k, fs w p = Some (File c false k) ->
        fst (compute_sha256 p w) = inl (PermissionError p))
    /\ (forall c k, fs w p = Some (File c true (Some k)) -> (k < length c)%nat ->
        fst (compute_sha256 p w) = inl (OSError_EIO p))
    /\ (forall e,
        (fs w p = None \/ fs w p = Some Dir
         \/ exists c k, fs w p = Some (File c false k)) ->
        fst (compute_sha256 p w) = inl e -> e <> OSError_EIO p).
Proof.
  intros w p. rewrite compute_sha256_run. cbn [fst]. repeat split.
  - intros ->. reflexivity.
  - intros ->. reflexivity.
  - intros c k ->. reflexivity.
  - intros c k -> Hk. unfold checksum_outcome.
    destruct (Nat.ltb_spec k (length c)); [reflexivity | lia].
  - intros e [-> | [-> | [c [k ->]]]] E; inversion E; discriminate.
Qed.

(** C6, as stated, fails: the path of a directory does not give the
    file-not-found condition. *)
Lemma directory_is_not_file_not_found :
  ~ (forall (w : world) (p : path),
        fs w p = Some Dir -> fst (compute_sha256 p w) = inl (FileNotFoundError p)).
Proof.
  intros H.
  specialize (H (Sample.start None None) (u "public") eq_refl).
  rewrite compute_sha256_run in H. vm_compute in H. discriminate H.
Qed.

Lemma compute_sha256_reference_digest_witness :
  fst (compute_sha256 Sample.zip_path
         (Sample.start None (Some (File (b "PK archive bytes") true None))))
  = inr (SHA256.hex (b "PK archive bytes")).
Proof.
  exact (proj1 (@compute_sha256_reference_digest
                  (Sample.start None (Some (File (b "PK archive bytes") true None)))
                  Sample.zip_path (b "PK archive bytes") None 3
                  eq_refl
                  ltac:(intros k Hk; discriminate Hk)
                  ltac:(lia))).
Defined.

Lemma compute_sha256_failure_kinds_witness :
  fst (compute_sha256 (u "missing.zip") (Sample.start None None))
  = inl (FileNotFoundError (u "missing.zip")).
Proof.
  exact (proj1 (compute_sha256_failure_kinds (Sample.start None None) (u "missing.zip"))
               eq_refl).
Defined.

(** ** The theorems at concrete inputs *)

Lemma canonical_message_exact_witness :
  Utf8.encode (canonical_message (u "3.1.4") (u "https://loiq.nl/a.zip") (u "ab12")
                 (u "2026-01-15T09:30:05Z"))
  = Some (canonical_bytes (b "3.1.4") (b "https://loiq.nl/a.zip") (b "ab12")
            (b "2026-01-15T09:30:05Z")).
Proof.
  exact (proj1 (@canonical_message_exact
                  (u "3.1.4") (u "https://loiq.nl/a.zip") (u "ab12")
                  (u "2026-01-15T09:30:05Z")
                  (b "3.1.4") (b "https://loiq.nl/a.zip") (b "ab12")
                  (b "2026-01-15T09:30:05Z")
                  eq_refl eq_refl eq_refl eq_refl)).
Defined.


Lemma sign_release_archive_not_found_witness :
  let w := Sample.start (Some Sample.key_file) None in
  fs w (Path (Pathlib := Sample.posix) (u "public/loiq-wp-agent.zip")) = None
  /\ fst (sign_release (ED := Sample.stand_in) (B64 := Sample.lenient)
            (PL := Sample.posix) Sample.script_file (u "3.1.4")
            (u "public/loiq-wp-agent.zip") w)
     = inl (SystemExit 1).
Proof.
  cbv zeta. split; [reflexivity|].
  exact (proj1 (@sign_release_archive_not_found Sample.stand_in Sample.lenient
                  Sample.posix Sample.script_file (u "3.1.4")
                  (u "public/loiq-wp-agent.zip")
                  (Sample.start (Some Sample.key_file) None) eq_refl)).
Defined.

Lemma malformed_key_fails_witness :
  let w := Sample.start (Some Sample.broken_key_file) (Some Sample.zip_file) in
  fs w (SIGNING_KEY_PATH (PL := Sample.posix) Sample.script_file)
  = Some Sample.broken_key_file
  /\ exists e,
       fst (load_signing_key (ED := Sample.stand_in) (B64 := Sample.lenient)
              (PL := Sample.posix) Sample.script_file w) = inl e
       /\ forall code, e <> SystemExit code.
Proof.
  cbv zeta. split; [reflexivity|].
  destruct (proj2 (@malformed_key_fails Sample.stand_in Sample.lenient Sample.posix
                     Sample.script_file
                     (Sample.start (Some Sample.broken_key_file) (Some Sample.zip_file))
                     Sample.broken_key_file eq_refl)) as [e [He [Hn _]]].
  - intros content fault s E [text [data [H1 [H2 [H3 _]]]]].
    inversion E; subst content.
    vm_compute in H1. inversion H1; subst text.
    vm_compute in H2. inversion H2; subst data.
    vm_compute in H3. discriminate H3.
  - exists e. split; assumption.
Defined.

(* ================================================================== *)
(** * Further properties of the script *)

Section Runs.

Context {ED : Ed25519} {B64 : Base64Decoder} {PL : Pathlib}.
Variable script_file : str.

Local Notation "'KEY'" := (SIGNING_KEY_PATH script_file).

Lemma world_eta (w : world) :
  mk_world (fs w) (clock w) (entropy w) (entropy_used w) (pynacl_installed w)
           (stdout w) (stderr w) (trace w) = w.
Proof. destruct w; reflexivity. Qed.

(** [generate_key_pair] draws 32 bytes, once, and writes its nine lines. *)
Lemma generate_key_pair_run (w : world) :
  generate_key_pair script_file w =
  (inr (mk_SigningKey (fresh_seed w)),
   mk_world (fs w) (clock w) (entropy w) (entropy_used w + 32)%nat
            (pynacl_installed w) (stdout w)
            (stderr w ++ key_report script_file (mk_SigningKey (fresh_seed w)))
            (trace w ++ [Ev_urandom 32])).
Proof.
  unfold generate_key_pair, SigningKey_generate, urandom, SigningKey_of_seed.
  unfold bind at 1 2 3. unfold log at 1.
  cbn [fst snd entropy entropy_used add_trace use_entropy].
  rewrite length_map, length_seq. cbn [Nat.eqb ret].
  unfold private_b64, verify_key_b64.
  rewrite bind_run, bytes_decode_b64.
  rewrite bind_run, bytes_decode_b64.
  reliable_channels. unfold bind, stderr_line, ret. rewrite !add_stderr_twice.
  unfold add_stderr, key_report, private_b64, verify_key_b64, fresh_seed.
  cbn [fs clock entropy entropy_used pynacl_installed stdout stderr trace seed].
  rewrite <- !app_assoc. reflexivity.
Qed.

Lemma load_signing_key_run (w : world) :
  load_signing_key script_file w = (key_outcome script_file w, after_load script_file w).
Proof.
  unfold after_load. destruct (fs w KEY) as [nd|] eqn:Ek.
  - exact (load_signing_key_existing script_file w Ek).
  - unfold key_outcome. rewrite Ek.
    unfold load_signing_key, path_exists.
    unfold bind at 1 2. unfold log at 1. cbn [fs add_trace]. rewrite Ek. cbn [negb].
    rewrite bind_run. cbn [eprint reliable stderr_line]. rewrite bind_run. cbn [eprint reliable stderr_line].
    rewrite add_stderr_twice, generate_key_pair_run.
    unfold add_stderr, add_trace, absent_notice, fresh_seed.
    cbn [fs clock entropy entropy_used pynacl_installed stdout stderr trace].
    rewrite <- !app_assoc. reflexivity.
Qed.

Lemma after_load_fs (w : world) : fs (after_load script_file w) = fs w.
Proof. unfold after_load. destruct (fs w KEY); reflexivity. Qed.

Lemma after_load_clock (w : world) : clock (after_load script_file w) = clock w.
Proof. unfold after_load. destruct (fs w KEY); reflexivity. Qed.

Lemma after_load_stdout (w : world) : stdout (after_load script_file w) = stdout w.
Proof. unfold after_load. destruct (fs w KEY); reflexivity. Qed.

(** [sign_release] on an archive that exists, step by step: the key, the
    checksum, the clock, the encoding of the message, the two reports. *)
Lemma sign_release_exact (version zip_path_arg : str) (w : world) (nd : node) :
  let zip := Path zip_path_arg in
  let download_url := DOWNLOAD_BASE_URL ++ u "/" ++ path_name zip in
  let released_at := strftime (clock w) in
  let w1 := after_load script_file (add_trace (Ev_exists zip) w) in
  let w2 := add_trace (Ev_open_binary zip) w1 in
  let w3 := add_trace Ev_now w2 in
  fs w zip = Some nd ->
  sign_release script_file version zip_path_arg w =
  match key_outcome script_file w with
  | inl e => (inl e, w1)
  | inr key =>
      match checksum_outcome zip (Some nd) with
      | inl e => (inl e, w2)
      | inr sha256 =>
          match Utf8.encode (canonical_message version download_url sha256 released_at) with
          | None => (inl UnicodeEncodeError, w3)
          | Some m =>
              (inr tt,
               add_stderr
                 (summary version sha256 (map Byte.to_N (verify_key_b64 key)) released_at)
                 (add_stdout
                    (Json.dumps_indent2
                       (update_info version download_url sha256 released_at
                          (map Byte.to_N (sign_b64 key m))
                          (dict_get CHANGELOG version (fallback_changelog version)))
                     ++ nl) w3))
          end
      end
  end.
Proof.
  intros zip download_url released_at w1 w2 w3 Ez.
  unfold sign_release, verify_key_b64, sign_b64. fold zip.
  unfold path_exists. unfold bind at 1 2. unfold log at 1. cbn [fs add_trace].
  rewrite Ez. cbn [negb]. unfold bind at 1. cbn [ret].
  rewrite bind_run, load_signing_key_run.
  change (key_outcome script_file (add_trace (Ev_exists zip) w))
    with (key_outcome script_file w).
  fold (add_trace (Ev_exists zip) w). fold w1.
  destruct (key_outcome script_file w) as [e|key]; [reflexivity|].
  rewrite bind_run, bytes_decode_b64.
  rewrite bind_run, compute_sha256_run.
  replace (fs w1 zip) with (Some nd)
    by (unfold w1; rewrite after_load_fs; symmetry; exact Ez).
  fold w2.
  destruct (checksum_outcome zip (Some nd)) as [e|sha256]; [reflexivity|].
  unfold now_utc. unfold bind at 1 2. unfold log at 1. cbn [clock add_trace].
  fold (add_trace Ev_now w2). fold w3.
  replace (clock w2) with (clock w)
    by (unfold w2, w1; cbn [clock add_trace]; rewrite after_load_clock; reflexivity).
  fold released_at. fold download_url.
  rewrite bind_run. unfold str_encode.
  destruct (Utf8.encode _) as [m|]; [|reflexivity].
  cbn [ret]. rewrite bind_run, bytes_decode_b64.
  reliable_channels. unfold bind, stdout_line, stderr_line, summary, fallback_changelog. f_equal.
  rewrite !add_stderr_twice. f_equal.
  rewrite <- !app_assoc. reflexivity.
Qed.

(** The same for a whole run of the interpreter. *)
Lemma python_exact (argv : list str) (w : world) (nd : node) :
  let version := nth 1 argv [] in
  let zip := Path (nth 2 argv []) in
  let download_url := DOWNLOAD_BASE_URL ++ u "/" ++ path_name zip in
  let released_at := strftime (clock w) in
  let w1 := after_load script_file (add_trace (Ev_exists zip) w) in
  let w2 := add_trace (Ev_open_binary zip) w1 in
  let w3 := add_trace Ev_now w2 in
  pynacl_installed w = true ->
  (3 <= length argv)%nat ->
  fs w zip = Some nd ->
  python script_file argv w =
  match key_outcome script_file w with
  | inl e => (1, add_stderr (traceback e) w1)
  | inr key =>
      match checksum_outcome zip (Some nd) with
      | inl e => (1, add_stderr (traceback e) w2)
      | inr sha256 =>
          match Utf8.encode (canonical_message version download_url sha256 released_at) with
          | None => (1, add_stderr (traceback UnicodeEncodeError) w3)
          | Some m =>
              (0,
               add_stderr
                 (summary version sha256 (map Byte.to_N (verify_key_b64 key)) released_at)
                 (add_stdout
                    (Json.dumps_indent2
                       (update_info version download_url sha256 released_at
                          (map Byte.to_N (sign_b64 key m))
                          (dict_get CHANGELOG version (fallback_changelog version)))
                     ++ nl) w3))
          end
      end
  end.
Proof.
  intros version zip download_url released_at w1 w2 w3 Hp Hlen Ez.
  unfold python, script. rewrite Hp. unfold main.
  replace (length argv <? 3)%nat with false by (symmetry; apply Nat.ltb_ge; lia).
  rewrite (@sign_release_exact (nth 1 argv []) (nth 2 argv []) w nd Ez).
  fold version zip download_url released_at w1 w2 w3.
  pose proof (key_outcome_not_exit script_file w) as Hk.
  destruct (key_outcome script_file w) as [e|key].
  { destruct e; try reflexivity. exfalso. eapply Hk. reflexivity. }
  pose proof (@checksum_outcome_not_exit zip (Some nd)) as Hc.
  destruct (checksum_outcome zip (Some nd)) as [e|sha256].
  { destruct e; try reflexivity. exfalso. eapply Hc. reflexivity. }
  destruct (Utf8.encode _); reflexivity.
Qed.

(** A run that exits with status 0 had PyNaCl, its two arguments and an
    archive at the path. *)
Lemma python_success (argv : list str) (w w' : world) :
  python script_file argv w = (0, w') ->
  pynacl_installed w = true /\ (3 <= length argv)%nat
  /\ exists nd, fs w (Path (nth 2 argv [])) = Some nd.
Proof.
  intros H. destruct (python_run script_file argv w) as [w1 [_ E]].
  rewrite E in H. clear E.
  destruct (run_outcome script_file argv w) as [e|[json report]] eqn:Er.
  { apply run_outcome_status in Er. inversion H. congruence. }
  clear H. unfold run_outcome, release_outcome in Er.
  destruct (pynacl_installed w); [|discriminate]. cbn [negb] in Er.
  destruct (Nat.ltb_spec (length argv) 3); [discriminate|].
  destruct (fs w (Path (nth 2 argv []))) as [nd|]; [|discriminate].
  split; [reflexivity|]. split; [assumption|]. exists nd. reflexivity.
Qed.



(** [main] reads [sys.argv[1]] and [sys.argv[2]] only: arguments
    after the archive path are ignored without a word, and so is the name
    the script was called by. *)
Remark extra_arguments_are_ignored :
  forall (name name' version zip_path_arg : str) (rest : list str) (w : world),
    python script_file (name :: version :: zip_path_arg :: rest) w
    = python script_file [name'; version; zip_path_arg] w.
Proof. intros. reflexivity. Qed.

(** X3. A run that exits with status 0 has made exactly five system
    calls, in this order: the existence check of the archive, the
    existence check of the key file, the read of the key file (or, when
    there is none, one draw of 32 random bytes), the read of the archive,
    and one reading of the clock.  It draws random bytes only when there
    is no key file. *)
Theorem successful_run_system_calls :
  forall (argv : list str) (w w' : world),
    python script_file argv w = (0, w') ->
    let zip := Path (nth 2 argv []) in
    trace w' = trace w
                 ++ [Ev_exists zip; Ev_exists KEY;
                     match fs w KEY with
                     | Some _ => Ev_open_text KEY
                     | None => Ev_urandom 32
                     end;
                     Ev_open_binary zip; Ev_now]
    /\ entropy_used w' = (entropy_used w
                          + match fs w KEY with Some _ => 0 | None => 32 end)%nat.
Proof.
  intros argv w w' H. cbv zeta.
  destruct (python_success _ _ H) as [Hp [Hlen [nd Ez]]].
  rewrite (python_exact argv w Hp Hlen Ez) in H.
  destruct (key_outcome script_file w) as [e|key]; [discriminate|].
  destruct (checksum_outcome _ _) as [e|sha256]; [discriminate|].
  destruct (Utf8.encode _) as [m|]; [|discriminate].
  inversion H as [Hw]. clear H Hw.
  unfold after_load.
  cbn [trace entropy_used fs add_stderr add_stdout add_trace].
  destruct (fs w KEY);
    cbn [trace entropy_used fs add_stderr add_stdout add_trace];
    rewrite <- !app_assoc; split; try reflexivity; lia.
Qed.


(** X5. Loading the key twice.  With a key file in place the second call
    returns what the first did, and neither draws a random byte.  With no
    key file every call makes a new key: the second one is built from the
    32 bytes of entropy that follow those of the first. *)
Theorem load_signing_key_twice :
  forall (w : world),
    let first := load_signing_key script_file w in
    let second := load_signing_key script_file (snd first) in
    (fs w KEY <> None ->
       fst second = fst first /\ entropy_used (snd second) = entropy_used w)
    /\ (fs w KEY = None ->
          fst first = inr (mk_SigningKey (map (entropy w) (seq (entropy_used w) 32)))
          /\ fst second
             = inr (mk_SigningKey (map (entropy w) (seq (entropy_used w + 32) 32)))
          /\ fs (snd second) KEY = None).
Proof.
  intros w. cbv zeta. rewrite !load_signing_key_run. cbn [fst snd].
  split.
  - intros Ek. destruct (fs w KEY) as [nd|] eqn:E; [|congruence].
    unfold after_load, key_outcome, fresh_seed.
    repeat (rewrite ?E; cbn [trace entropy entropy_used fs add_trace]).
    split; reflexivity.
  - intros Ek. unfold after_load, key_outcome, fresh_seed.
    repeat (rewrite ?Ek; cbn [trace entropy entropy_used fs add_trace]).
    repeat split.
Qed.

Lemma ascii7_Forall (s : str) : ascii7 s = true -> Forall (fun c => c < 0x80) s.
Proof.
  unfold ascii7. rewrite forallb_forall. intros H. apply Forall_forall.
  intros c Hc. apply N.ltb_lt, H, Hc.
Qed.

Lemma dec_digits (n : nat) : forall v c, In c (dec n v) -> 48 <= c /\ c <= 57.
Proof.
  induction n as [|n IH]; intros v c; cbn [dec]; [intros []|].
  rewrite in_app_iff. intros [H | [<- | []]]; [exact (IH _ _ H) | nlia].
Qed.

Lemma strftime_digits (t : datetime) (c : codepoint) :
  In c (strftime t) -> 45 <= c /\ c <= 90.
Proof.
  unfold strftime. rewrite !in_app_iff.
  intros H.
  repeat match goal with
         | H : _ \/ _ |- _ => destruct H as [H | H]
         | H : In _ (dec _ _) |- _ => apply dec_digits in H
         | H : In _ (u _) |- _ => vm_compute in H; destruct H as [<- | []]
         end; lia.
Qed.

Lemma strftime_ascii (t : datetime) : ascii7 (strftime t) = true.
Proof.
  apply forallb_forall. intros c Hc. apply strftime_digits in Hc.
  apply N.ltb_lt. lia.
Qed.

Lemma lower_hex_ascii (s : str) : forallb is_lower_hex s = true -> ascii7 s = true.
Proof.
  unfold ascii7. rewrite !forallb_forall. intros H c Hc. specialize (H c Hc).
  unfold is_lower_hex in H. apply N.ltb_lt.
  apply orb_prop in H. destruct H as [H | H]; apply andb_prop in H;
    destruct H as [_ H]; apply N.leb_le in H; lia.
Qed.

Lemma hex_ascii (data : bytes) : ascii7 (SHA256.hex data) = true.
Proof. apply lower_hex_ascii, DigestFacts.hex_bytes_lower. Qed.

Lemma encode_canonical_message_inv (v d s r : str) (m : bytes) :
  Utf8.encode (canonical_message v d s r) = Some m ->
  Utf8.encode v <> None /\ Utf8.encode d <> None.
Proof.
  unfold canonical_message. rewrite !Utf8Facts.encode_app.
  intros E. split; intros H; rewrite H in E;
    repeat match type of E with
           | context [match Utf8.encode ?x with _ => _ end] => destruct (Utf8.encode x)
           end; discriminate E.
Qed.


(** ** The timestamp *)

Lemma undec_dec_from (n : nat) : forall (v a : N),
  fold_left (fun acc c =>
               match acc with
               | Some a => if (48 <=? c) && (c <=? 57) then Some (10 * a + (c - 48))
                           else None
               | None => None
               end) (dec n v) (Some a)
  = Some (a * 10 ^ N.of_nat n + v mod 10 ^ N.of_nat n).
Proof.
  induction n as [|n IH]; intros v a; cbn [dec].
  - cbn [fold_left]. change (10 ^ N.of_nat 0) with 1. rewrite N.mod_1_r. f_equal. lia.
  - rewrite fold_left_app, IH. cbn [fold_left].
    assert (Hd : v mod 10 < 10) by (apply N.mod_upper_bound; lia).
    replace (48 <=? 48 + v mod 10) with true by (symmetry; apply N.leb_le; nlia).
    replace (48 + v mod 10 <=? 57) with true by (symmetry; apply N.leb_le; nlia).
    cbn [andb]. f_equal.
    rewrite Nat2N.inj_succ, N.pow_succ_r', N.Div0.mod_mul_r.
    generalize (10 ^ N.of_nat n) ((v / 10) mod 10 ^ N.of_nat n) (v mod 10).
    intros p x y. nia.
Qed.

Lemma undec_dec (n : nat) (v : N) :
  v < 10 ^ N.of_nat n -> undec (dec n v) = Some v.
Proof.
  intros Hv. unfold undec. rewrite undec_dec_from, N.mod_small by assumption.
  reflexivity.
Qed.

(** X8. The timestamp of line 128 has the fixed form
    [YYYY-MM-DDTHH:MM:SSZ]: 20 characters on one line, all of 7-bit
    ASCII, from which the reading of the clock is recovered to the second.
    Its year is taken to have four digits, as the clock of a run has. *)
Theorem released_at_reads_back :
  forall (t : datetime),
    1000 <= year t < 10000 ->
    month t < 100 -> day t < 100 ->
    hour t < 100 -> minute t < 100 -> second t < 100 ->
    parse_timestamp (strftime t) = Some t
    /\ length (strftime t) = 20%nat
    /\ single_line (strftime t) = true
    /\ ascii7 (strftime t) = true.
Proof.
  intros [y mo d h mi s]. cbn [year month day hour minute second].
  intros Hy Hmo Hd Hh Hmi Hs.
  split; [|split; [reflexivity|split]].
  - transitivity
      (match undec (dec 4 y), undec (dec 2 mo), undec (dec 2 d),
             undec (dec 2 h), undec (dec 2 mi), undec (dec 2 s) with
       | Some y, Some m, Some d, Some h, Some i, Some s =>
           Some (mk_datetime y m d h i s)
       | _, _, _, _, _, _ => None
       end); [reflexivity|].
    rewrite !undec_dec by (cbn; lia). reflexivity.
  - apply forallb_forall. intros c Hc. apply strftime_digits in Hc.
    destruct (N.eqb_spec c 10); [lia | reflexivity].
  - apply strftime_ascii.
Qed.

(** ** The changelog *)

Lemma lstrip_head (s : str) (x : codepoint) :
  hd_error (lstrip s) = Some x -> isspace x = false.
Proof.
  induction s as [|c s IH]; cbn [lstrip]; [discriminate|].
  destruct (isspace c) eqn:Ec; [exact IH|].
  cbn [hd_error]. intros E. inversion E; subst. exact Ec.
Qed.

Lemma lstrip_snoc (s : str) (x : codepoint) :
  isspace x = false -> lstrip (s ++ [x]) = lstrip s ++ [x].
Proof.
  intros Hx. induction s as [|c s IH]; cbn [lstrip app].
  - rewrite Hx. reflexivity.
  - destruct (isspace c); [exact IH | reflexivity].
Qed.

Lemma rstrip_cons (x : codepoint) (s : str) :
  isspace x = false -> rstrip (x :: s) = x :: rstrip s.
Proof.
  intros Hx. unfold rstrip. cbn [rev].
  rewrite lstrip_snoc, rev_app_distr by assumption. reflexivity.
Qed.

Lemma strip_head (s : str) (x : codepoint) :
  hd_error (strip s) = Some x -> isspace x = false.
Proof.
  unfold strip. destruct (lstrip s) as [|c t] eqn:E; [discriminate|].
  assert (Hc : isspace c = false) by (apply (@lstrip_head s); rewrite E; reflexivity).
  rewrite rstrip_cons by assumption. cbn [hd_error].
  intros H. inversion H; subst. exact Hc.
Qed.

Lemma strip_last (s : str) (x : codepoint) :
  hd_error (rev (strip s)) = Some x -> isspace x = false.
Proof. unfold strip, rstrip. rewrite rev_involutive. apply lstrip_head. Qed.

Lemma strip_ends (x y : codepoint) (s : str) :
  isspace x = false -> isspace y = false ->
  strip ((x :: s) ++ [y]) = (x :: s) ++ [y].
Proof.
  intros Hx Hy. unfold strip. cbn [app lstrip]. rewrite Hx.
  unfold rstrip. rewrite app_comm_cons, rev_app_distr.
  change (rev [y] ++ rev (x :: s)) with (y :: rev (x :: s)).
  cbn [lstrip]. rewrite Hy.
  change (rev (y :: rev (x :: s))) with (rev (rev (x :: s)) ++ [y]).
  rewrite rev_involutive. reflexivity.
Qed.

Lemma dict_get_absent (d : list (str * str)) (key default : str) :
  ~ In key (map fst d) -> dict_get d key default = default.
Proof.
  induction d as [|[k v] d IH]; cbn [dict_get map fst In]; [reflexivity|].
  intros H. unfold str_eqb. destruct (list_eq_dec N.eq_dec k key) as [E|_].
  - exfalso. apply H. left. exact E.
  - apply IH. intros Hin. apply H. right. exact Hin.
Qed.

(** X9. The changelog member of the descriptor.  For a version that has
    no entry in the table it is the generic text: a heading with the
    version and the line [- Bug fixes and improvements].  For every
    version it is a text that is not empty and neither begins nor ends
    with whitespace. *)
Theorem changelog_member :
  forall (version download_url sha256 released_at signature : str),
    let changelog :=
      dict_get (update_info version download_url sha256 released_at signature
                  (dict_get CHANGELOG version (fallback_changelog version)))
               (u "changelog") [] in
    (~ In version (map fst CHANGELOG) ->
       changelog = u "### " ++ version ++ nl ++ u "- Bug fixes and improvements")
    /\ changelog <> []
    /\ (forall x, hd_error changelog = Some x -> isspace x = false)
    /\ (forall x, hd_error (rev changelog) = Some x -> isspace x = false).
Proof.
  intros version download_url sha256 released_at signature.
  change (dict_get (update_info version download_url sha256 released_at signature
                      (dict_get CHANGELOG version (fallback_changelog version)))
                   (u "changelog") [])
    with (strip (dict_get CHANGELOG version (fallback_changelog version))).
  cbv zeta.
  assert (Hf : strip (fallback_changelog version) = fallback_changelog version).
  { unfold fallback_changelog.
    change (u "### " ++ version ++ nl ++ u "- Bug fixes and improvements")
      with (35 :: (u "## " ++ version ++ nl ++ u "- Bug fixes and improvement" ++ [115])).
    replace (u "## " ++ version ++ nl ++ u "- Bug fixes and improvement" ++ [115])
      with ((u "## " ++ version ++ nl ++ u "- Bug fixes and improvement") ++ [115])
      by (rewrite <- !app_assoc; reflexivity).
    apply (@strip_ends 35 115); reflexivity. }
  split; [|split; [|split]].
  - intros Hv. rewrite dict_get_absent by assumption. exact Hf.
  - unfold CHANGELOG. cbn [dict_get].
    repeat match goal with
           | |- context [if str_eqb ?k version then _ else _] =>
               destruct (str_eqb k version); [vm_compute; discriminate|]
           end.
    rewrite Hf. discriminate.
  - intros x. apply strip_head.
  - intros x. apply strip_last.
Qed.

(** ** Saving the generated key *)

Lemma strip_plain (s : str) :
  (forall c, In c s -> isspace c = false) -> strip s = s.
Proof.
  intros H.
  assert (Hl : forall t : str, (forall c, In c t -> isspace c = false) -> lstrip t = t).
  { intros [|c t] Ht; [reflexivity|]. cbn [lstrip].
    rewrite (Ht c) by (left; reflexivity). reflexivity. }
  unfold strip, rstrip. rewrite (Hl s H), Hl, rev_involutive; [reflexivity|].
  intros c Hc. apply H, in_rev, Hc.
Qed.





(** ** The descriptor and the signed message *)

Lemma units_bmp (s : str) : bmp s = true -> JsonReader.units s = s.
Proof.
  unfold bmp, JsonReader.units.
  induction s as [|c s IH]; [reflexivity|]. cbn [forallb flat_map].
  intros H. apply andb_prop in H. destruct H as [Hc Hs].
  unfold JsonReader.units_cp at 1. rewrite Hc, IH by assumption. reflexivity.
Qed.

Lemma ascii7_bmp (s : str) : ascii7 s = true -> bmp s = true.
Proof.
  unfold ascii7, bmp. rewrite !forallb_forall. intros H c Hc.
  specialize (H c Hc). apply N.ltb_lt in H. apply N.ltb_lt. lia.
Qed.

Lemma b64encode_bmp (x : bytes) : bmp (map Byte.to_N (Base64.b64encode x)) = true.
Proof.
  apply ascii7_bmp, forallb_forall. intros c Hc. apply in_map_iff in Hc.
  destruct Hc as [y [<- Hy]]. apply N.ltb_lt.
  exact (proj1 (Forall_forall _ _) (Base64Facts.b64encode_ascii x) y Hy).
Qed.


(** X12. The four lines of the canonical message are not escaped.  For
    values without a line break the encoded message determines the four
    fields: two tuples of such values that encode to the same bytes are
    the same tuple.  With a line break inside a value this fails: two
    different pairs of version and URL give the same message. *)
Theorem canonical_message_lines :
  (forall (v d s r v' d' s' r' : str) (m : bytes),
     single_line v = true -> single_line d = true ->
     single_line s = true -> single_line r = true ->
     single_line v' = true -> single_line d' = true ->
     single_line s' = true -> single_line r' = true ->
     Utf8.encode (canonical_message v d s r) = Some m ->
     Utf8.encode (canonical_message v' d' s' r') = Some m ->
     v = v' /\ d = d' /\ s = s' /\ r = r')
  /\ (exists v d v' d' : str,
        v <> v' /\ d <> d'
        /\ forall s r, canonical_message v d s r = canonical_message v' d' s r).
Proof.
  split.
  - intros v d s r v' d' s' r' m Hv Hd Hs Hr Hv' Hd' Hs' Hr' E E'.
    apply (@canonical_message_unambiguous v d s r v' d' s' r'); try assumption.
    exact (Utf8Facts.encode_inj _ _ E E').
  - exists (u "1" ++ nl ++ u "download_url=x"), (u "y"),
      (u "1"), (u "x" ++ nl ++ u "download_url=y").
    split; [discriminate|]. split; [discriminate|].
    intros s r. reflexivity.
Qed.

(** X13. [sign_release] ends with [sys.exit] in one case only, the
    archive that does not exist, and then with status 1.  Every other
    failure (a key that does not load, an archive that cannot be read, a
    message that cannot be encoded) is an exception that nothing
    catches. *)
Theorem only_missing_archive_exits_cleanly :
  forall (version zip_path_arg : str) (w : world) (code : N),
    fst (sign_release script_file version zip_path_arg w) = inl (SystemExit code) ->
    code = 1 /\ fs w (Path zip_path_arg) = None.
Proof.
  intros version zip_path_arg w code H.
  destruct (fs w (Path zip_path_arg)) as [nd|] eqn:Ez.
  - exfalso. rewrite (sign_release_exact version zip_path_arg w Ez) in H.
    pose proof (key_outcome_not_exit script_file w) as Hk.
    destruct (key_outcome script_file w) as [e|key].
    { cbn [fst] in H. apply (Hk code). inversion H. reflexivity. }
    pose proof (@checksum_outcome_not_exit (Path zip_path_arg) (Some nd)) as Hc.
    destruct (checksum_outcome _ _) as [e|sha256].
    { cbn [fst] in H. apply (Hc code). inversion H. reflexivity. }
    destruct (Utf8.encode _); discriminate H.
  - split; [|reflexivity].
    unfold sign_release, path_exists in H.
    unfold bind at 1 2 in H. unfold log at 1 in H. cbn [fs add_trace] in H.
    rewrite Ez in H. cbn in H. inversion H. reflexivity.
Qed.

End Runs.

(** ** Whitespace around the key *)

Lemma universal_newlines_plain (t r : str) :
  (forall c, In c t -> isspace c = false) ->
  universal_newlines (t ++ r) = t ++ universal_newlines r.
Proof.
  induction t as [|c t IH]; intros H; [reflexivity|].
  cbn [app universal_newlines].
  assert (Hc : isspace c = false) by (apply H; left; reflexivity).
  destruct (N.eqb_spec c 13) as [-> | _]; [discriminate Hc|].
  rewrite IH; [reflexivity|]. intros d Hd. apply H. right. exact Hd.
Qed.

Lemma universal_newlines_cons (c : codepoint) (s : str) :
  c <> 13 -> universal_newlines (c :: s) = c :: universal_newlines s.
Proof.
  intros Hc. cbn [universal_newlines].
  destruct (N.eqb_spec c 13); [contradiction | reflexivity].
Qed.

(** Text mode reading keeps whitespace whitespace. *)
Lemma universal_newlines_spaces (n : nat) : forall ws : str,
  (length ws <= n)%nat -> forallb isspace ws = true ->
  forallb isspace (universal_newlines ws) = true.
Proof.
  induction n as [|n IH]; intros [|c ws] Hn H; try reflexivity; [simpl in Hn; lia|].
  cbn [forallb] in H. apply andb_prop in H. destruct H as [Hc Hws].
  cbn [length] in Hn. cbn [universal_newlines].
  destruct (c =? 13).
  - destruct ws as [|d ws']; [reflexivity|].
    cbn [forallb] in Hws. apply andb_prop in Hws. destruct Hws as [Hd Hws'].
    destruct (d =? 10); cbn [forallb isspace]; cbn.
    + apply IH; [cbn [length] in Hn; lia | assumption].
    + apply (IH (d :: ws')); [lia|]. cbn [forallb]. rewrite Hd. exact Hws'.
  - cbn [forallb]. rewrite Hc. apply IH; [lia | assumption].
Qed.

(** Before a text that does not begin with a line feed, text mode reading
    works on the two parts apart. *)
Lemma universal_newlines_app (n : nat) : forall (a : str) (x : codepoint) (r : str),
  (length a <= n)%nat -> x <> 10 ->
  universal_newlines (a ++ x :: r) = universal_newlines a ++ universal_newlines (x :: r).
Proof.
  induction n as [|n IH]; intros [|c a] x r Hn Hx; try reflexivity; [simpl in Hn; lia|].
  cbn [length] in Hn. cbn [app]. cbn [universal_newlines]. fold universal_newlines.
  destruct (c =? 13).
  - destruct a as [|d a']; cbn [app].
    + destruct (N.eqb_spec x 10); [contradiction | reflexivity].
    + destruct (d =? 10).
      * cbn [app]. f_equal. apply IH; [cbn [length] in Hn; lia | assumption].
      * cbn [app]. f_equal. apply (IH (d :: a')); [lia | assumption].
  - cbn [app]. f_equal. apply IH; [lia | assumption].
Qed.

(** What is left of a padded text when it has been read and stripped. *)
Lemma strip_read_padded (ws t ws' : str) :
  forallb isspace ws = true -> forallb isspace ws' = true ->
  existsb isspace t = false ->
  strip (universal_newlines (ws ++ t ++ ws')) = t.
Proof.
  intros Hws Hws' Ht.
  assert (Hplain : forall c, In c t -> isspace c = false).
  { intros c Hc. destruct (isspace c) eqn:E; [|reflexivity].
    assert (existsb isspace t = true) by (apply existsb_exists; exists c; tauto).
    congruence. }
  pose proof (@universal_newlines_spaces (length ws) ws (le_n _) Hws) as H1.
  pose proof (@universal_newlines_spaces (length ws') ws' (le_n _) Hws') as H2.
  destruct t as [|x t'].
  - cbn [app].
    assert (H : forallb isspace (universal_newlines (ws ++ ws')) = true).
    { apply (@universal_newlines_spaces (length (ws ++ ws'))); [apply le_n|].
      rewrite forallb_app, Hws, Hws'. reflexivity. }
    rewrite <- (app_nil_r (universal_newlines (ws ++ ws'))).
    exact (strip_surrounded _ [] [] H eq_refl).
  - assert (Hx : x <> 10).
    { intros ->. discriminate (Hplain 10 (or_introl eq_refl)). }
    change (ws ++ (x :: t') ++ ws') with (ws ++ x :: (t' ++ ws')).
    rewrite (@universal_newlines_app (length ws) ws x (t' ++ ws') (le_n _) Hx).
    change (x :: t' ++ ws') with ((x :: t') ++ ws').
    rewrite (@universal_newlines_plain (x :: t') ws' Hplain).
    rewrite (strip_surrounded _ (x :: t') _ H1 H2).
    apply strip_plain. exact Hplain.
Qed.

(* ================================================================== *)
(** * The output channels

    So far a run was a run on channels that take whatever is written.
    The script itself does not see to that: it catches no exception and
    checks no write.  The theorems of this part are about any channels. *)

Lemma bind_ext A B (m m' : M A) (k k' : A -> M B) (w : world) :
  m w = m' w -> (forall a w1, k a w1 = k' a w1) -> bind m k w = bind m' k' w.
Proof.
  intros Hm Hk. rewrite !bind_run, Hm.
  destruct (m' w) as [[e|a] w1]; [reflexivity | apply Hk].
Qed.

Section Accepting.

Context {ED : Ed25519} {B64 : Base64Decoder} {PL : Pathlib} {CH : Channels}.
Variable script_file : str.

Hypothesis accepting : accepts CH.

Local Notation "'KEY'" := (SIGNING_KEY_PATH script_file).

Lemma print_accepting (s : str) (w : world) : print s w = print (Channels := reliable) s w.
Proof. exact (proj1 accepting s w). Qed.

Lemma eprint_accepting (s : str) (w : world) :
  eprint s w = eprint (Channels := reliable) s w.
Proof. exact (proj1 (proj2 accepting) s w). Qed.

Ltac same_run :=
  repeat first
    [ reflexivity
    | apply eprint_accepting
    | apply print_accepting
    | apply bind_ext; [|intros] ].

Lemma load_signing_key_accepting (w : world) :
  load_signing_key script_file w = load_signing_key (CH := reliable) script_file w.
Proof.
  unfold load_signing_key. apply bind_ext; [reflexivity|].
  intros present w1. destruct present; cbn [negb]; same_run.
Qed.

Lemma sign_release_accepting (version zip_path_arg : str) (w : world) :
  sign_release script_file version zip_path_arg w
  = sign_release (CH := reliable) script_file version zip_path_arg w.
Proof.
  unfold sign_release. cbv zeta. apply bind_ext; [reflexivity|].
  intros present w1. apply bind_ext.
  { destruct present; cbn [negb]; same_run. }
  intros _ w2. apply bind_ext; [apply load_signing_key_accepting|].
  intros signing_key w3. same_run.
Qed.

Lemma script_accepting (argv : list str) (w : world) :
  script script_file argv w = script (CH := reliable) script_file argv w.
Proof.
  unfold script, main. destruct (pynacl_installed w); [|same_run].
  destruct (length argv <? 3)%nat; [same_run|]. apply sign_release_accepting.
Qed.

(** On channels that accept what is written a run is the run of the
    earlier parts. *)
Lemma python_accepting (argv : list str) (w : world) :
  python script_file argv w = python (CH := reliable) script_file argv w.
Proof.
  unfold python. rewrite script_accepting.
  destruct (script (CH := reliable) script_file argv w) as [r w1].
  exact (proj2 (proj2 accepting) r w1).
Qed.

End Accepting.

Section Apart.

Context {ED : Ed25519} {B64 : Base64Decoder} {PL : Pathlib} {CH : Channels}.
Variable script_file : str.

Hypothesis apart : diagnostics_apart CH.

Local Notation "'KEY'" := (SIGNING_KEY_PATH script_file).
Local Notation "'any'" := (fun _ : event => True).

Lemma quiet_eprint_apart (s : str) : quiet any (eprint s).
Proof.
  intros w r w' E. destruct (proj1 apart s w) as [e He].
  rewrite E in He. cbn [snd] in He. subst w'.
  constructor; cbn; try reflexivity.
  - eexists. reflexivity.
  - exists []. split; [symmetry; apply app_nil_r | constructor].
Qed.

Lemma no_exit_eprint (s : str) : no_exit (eprint s).
Proof. exact (proj1 (proj2 apart) s). Qed.

Lemma no_exit_bind A B (m : M A) (k : A -> M B) :
  no_exit m -> (forall a, no_exit (k a)) -> no_exit (bind m k).
Proof.
  intros Hm Hk w code. rewrite bind_run. specialize (Hm w code).
  destruct (m w) as [[e|a] w1]; cbn [fst] in *; [|apply Hk].
  intros E. apply Hm. inversion E. reflexivity.
Qed.

Lemma no_exit_ret A (a : A) : no_exit (ret a).
Proof. intros w code. discriminate. Qed.

Lemma no_exit_read (A : Type) (g : world -> A) (h : world -> world) :
  no_exit (fun w => (inr (g w), h w)).
Proof. intros w code. discriminate. Qed.

Lemma no_exit_generate_key_pair : no_exit (generate_key_pair script_file).
Proof.
  unfold generate_key_pair, SigningKey_generate, urandom, log.
  apply no_exit_bind.
  { apply no_exit_bind; [apply no_exit_bind; [apply no_exit_read|intros; apply no_exit_read]|].
    intros s. unfold SigningKey_of_seed.
    destruct (length s =? 32)%nat; intros w code; discriminate. }
  intros key. unfold private_b64, verify_key_b64.
  apply no_exit_bind.
  { intros w code. rewrite bytes_decode_b64. discriminate. }
  intros t1. apply no_exit_bind.
  { intros w code. rewrite bytes_decode_b64. discriminate. }
  intros t2.
  repeat (apply no_exit_bind; [apply no_exit_eprint | intros _]).
  apply no_exit_ret.
Qed.

(** With a key file in place loading writes nothing, on any channels. *)
Lemma load_signing_key_present (w : world) (nd : node) :
  fs w KEY = Some nd ->
  load_signing_key script_file w =
  (key_outcome script_file w, add_trace (Ev_open_text KEY) (add_trace (Ev_exists KEY) w)).
Proof.
  intros Ek. unfold load_signing_key, key_outcome, path_exists.
  unfold bind at 1 2. unfold log at 1. cbn [fs add_trace].
  rewrite Ek. cbn [negb].
  rewrite bind_run, read_text_run. cbn [fs add_trace]. rewrite Ek.
  destruct (text_outcome KEY (Some nd)) as [e|text]; [reflexivity|].
  unfold key_of_text, str_encode, SigningKey_of_base64, SigningKey_of_seed.
  destruct (Utf8.encode (strip text)) as [data|]; [|reflexivity].
  rewrite bind_run. cbn [ret].
  destruct (b64decode data) as [s|]; [|reflexivity].
  destruct (length s =? 32)%nat; reflexivity.
Qed.

Lemma no_exit_load_signing_key : no_exit (load_signing_key script_file).
Proof.
  intros w code. destruct (fs w KEY) as [nd|] eqn:Ek.
  - rewrite (load_signing_key_present _ Ek). cbn [fst].
    apply key_outcome_not_exit.
  - revert w code Ek.
    assert (H : no_exit (eprint (u "No signing key found at " ++ KEY) ;;
                         eprint (u "Generating new key pair...") ;;
                         generate_key_pair script_file)).
    { repeat (apply no_exit_bind; [apply no_exit_eprint | intros _]).
      apply no_exit_generate_key_pair. }
    intros w code Ek. unfold load_signing_key, path_exists.
    unfold bind at 1 2. unfold log at 1. cbn [fs add_trace]. rewrite Ek. cbn [negb].
    apply H.
Qed.

Lemma quiet_load_signing_key_apart : quiet any (load_signing_key script_file).
Proof.
  unfold load_signing_key, generate_key_pair, SigningKey_generate, SigningKey_of_base64.
  apply quiet_bind; [apply quiet_path_exists; exact I|]. intros present.
  destruct (negb present).
  - repeat first
      [ apply quiet_eprint_apart | apply quiet_ret | apply quiet_bytes_decode
      | apply quiet_urandom; exact I
      | apply quiet_bind; [|intros] ].
    unfold SigningKey_of_seed.
    destruct (length _ =? 32)%nat; [apply quiet_ret | apply quiet_raise].
  - apply quiet_bind; [apply quiet_read_text; exact I|]. intros text.
    apply quiet_bind; [apply quiet_str_encode|]. intros data.
    destruct (b64decode data) as [s|]; [|apply quiet_raise].
    unfold SigningKey_of_seed.
    destruct (length s =? 32)%nat; [apply quiet_ret | apply quiet_raise].
Qed.

(** A write to the diagnostic channel followed by [sys.exit(1)], or by
    anything that does not come back, does not come back. *)
Lemma eprint_then_stops (A : Type) (s : str) (k : M A) (w : world) :
  (forall w1, exists e w2, k w1 = (inl e, w2) /\ frame any w1 w2 /\ e <> SystemExit 0) ->
  exists e w2, (eprint s ;; k) w = (inl e, w2) /\ frame any w w2 /\ e <> SystemExit 0.
Proof.
  intros Hk. rewrite bind_run.
  pose proof (@quiet_eprint_apart s w) as Hq.
  assert (Hn : fst (eprint s w) <> inl (SystemExit 0)) by apply no_exit_eprint.
  destruct (eprint s w) as [[e|[]] w1].
  - exists e, w1. split; [reflexivity|]. split; [exact (Hq _ _ eq_refl)|].
    intros ->. apply Hn. reflexivity.
  - destruct (Hk w1) as [e [w2 [E [F Hn']]]]. exists e, w2.
    split; [exact E|]. split; [|exact Hn'].
    exact (frame_trans (Hq _ _ eq_refl) F).
Qed.

Lemma sys_exit_stops (A : Type) (w1 : world) :
  exists e w2, @sys_exit A 1 w1 = (inl e, w2) /\ frame any w1 w2 /\ e <> SystemExit 0.
Proof.
  exists (SystemExit 1), w1. split; [reflexivity|]. split; [apply frame_refl|].
  discriminate.
Qed.

(** Whatever ends [sign_release] before the descriptor is printed ends it
    on any channels, with nothing written to the primary one. *)
Lemma sign_release_stops (version zip_path_arg : str) (w : world) (e0 : exn) :
  release_outcome script_file version zip_path_arg w = inl e0 ->
  exists e w1,
    sign_release script_file version zip_path_arg w = (inl e, w1)
    /\ frame any w w1 /\ e <> SystemExit 0.
Proof.
  set (zip := Path zip_path_arg).
  assert (F0 : frame any w (add_trace (Ev_exists zip) w))
    by (apply frame_add_trace; exact I).
  unfold sign_release, release_outcome, verify_key_b64, sign_b64. fold zip.
  unfold path_exists. unfold bind at 1 2. unfold log at 1. cbn [fs add_trace].
  destruct (fs w zip) as [node|] eqn:Ez; cbn [negb].
  2:{ intros _. rewrite bind_run.
      destruct (@eprint_then_stops unit (u "Error: ZIP file not found: " ++ zip)
                  (sys_exit 1) (add_trace (Ev_exists zip) w)
                  (@sys_exit_stops unit)) as [e [w2 [E [F Hn]]]].
      rewrite E. exists e, w2. split; [reflexivity|]. split; [|exact Hn].
      exact (frame_trans F0 F). }
  unfold bind at 1. cbn [ret]. rewrite bind_run.
  pose proof (@quiet_load_signing_key_apart (add_trace (Ev_exists zip) w)) as Fk.
  assert (Nk : fst (load_signing_key script_file (add_trace (Ev_exists zip) w))
               <> inl (SystemExit 0)) by apply no_exit_load_signing_key.
  assert (Hk : forall nd, fs w KEY = Some nd ->
            fst (load_signing_key script_file (add_trace (Ev_exists zip) w))
            = key_outcome script_file w).
  { intros nd Ek. rewrite (@load_signing_key_present (add_trace (Ev_exists zip) w) nd Ek).
    reflexivity. }
  destruct (load_signing_key script_file (add_trace (Ev_exists zip) w))
    as [rk wa] eqn:Ek.
  specialize (Fk _ _ eq_refl). cbn [fst] in Hk, Nk.
  assert (Fa : frame any w wa) by (eapply frame_trans; eassumption).
  destruct rk as [e|key].
  { intros _. exists e, wa. split; [reflexivity|]. split; [assumption|].
    intros ->. apply Nk. reflexivity. }
  assert (Ho : exists key', key_outcome script_file w = inr key').
  { unfold key_outcome in *. destruct (fs w KEY) as [nd|]; [|eexists; reflexivity].
    rewrite <- (Hk nd eq_refl). eexists. reflexivity. }
  destruct Ho as [key' ->].
  rewrite bind_run, bytes_decode_b64.
  rewrite bind_run, compute_sha256_run. rewrite (fr_fs Fa), Ez.
  set (wb := add_trace (Ev_open_binary zip) wa).
  assert (Fb : frame any w wb).
  { eapply frame_trans; [exact Fa | apply frame_add_trace; exact I]. }
  assert (Nc : checksum_outcome zip (Some node) <> inl (SystemExit 0))
    by apply checksum_outcome_not_exit.
  destruct (checksum_outcome zip (Some node)) as [e|sha256].
  { intros _. exists e, wb. split; [reflexivity|]. split; [assumption|].
    intros ->. apply Nc. reflexivity. }
  unfold now_utc. unfold bind at 1 2. unfold log at 1. cbn [clock add_trace].
  fold (add_trace Ev_now wb). set (wc := add_trace Ev_now wb).
  assert (Fc : frame any w wc).
  { eapply frame_trans; [exact Fb | apply frame_add_trace; exact I]. }
  replace (clock wb) with (clock w) by (symmetry; apply (fr_clock Fb)).
  rewrite bind_run. unfold str_encode.
  destruct (Utf8.encode _) as [m|]; [discriminate|].
  intros _. exists UnicodeEncodeError, wc.
  split; [reflexivity|]. split; [assumption | discriminate].
Qed.

Lemma script_stops (argv : list str) (w : world) (e0 : exn) :
  run_outcome script_file argv w = inl e0 ->
  exists e w1,
    script script_file argv w = (inl e, w1) /\ frame any w w1 /\ e <> SystemExit 0.
Proof.
  unfold script, run_outcome, main.
  destruct (pynacl_installed w); cbn [negb].
  - destruct (length argv <? 3)%nat.
    + intros _. apply eprint_then_stops. intros w1.
      apply eprint_then_stops. apply sys_exit_stops.
    + apply sign_release_stops.
  - intros _. apply eprint_then_stops. apply sys_exit_stops.
Qed.

(** The run then ends with a status that is not 0 and the primary channel
    as it was. *)
Lemma python_stops (argv : list str) (w : world) (e0 : exn) :
  run_outcome script_file argv w = inl e0 ->
  fst (python script_file argv w) <> 0
  /\ stdout (snd (python script_file argv w)) = stdout w.
Proof.
  intros H. destruct (script_stops _ _ H) as [e [w1 [E [F Hn]]]].
  unfold python. rewrite E. split.
  - intros H0. apply Hn. exact (proj2 (proj2 (proj2 apart)) e w1 H0).
  - rewrite (proj1 (proj2 (proj2 apart)) e w1). exact (fr_stdout F).
Qed.

End Apart.

Lemma reliable_accepts : accepts reliable.
Proof. repeat split. Qed.

Lemma reliable_apart : diagnostics_apart reliable.
Proof.
  repeat split.
  - intros s w. exists (s ++ nl). reflexivity.
  - intros s w code. discriminate.
  - intros e w. destruct e; reflexivity.
  - intros e w H. destruct e; try discriminate H. cbn in H. subst. reflexivity.
Qed.

Section AnyChannels.

Context {ED : Ed25519} {B64 : Base64Decoder} {PL : Pathlib}.
Variable script_file : str.

Local Notation "'KEY'" := (SIGNING_KEY_PATH script_file).

(** Each failure of the list ends the run before the descriptor is
    printed. *)
Lemma listed_failure (CH : Channels) (argv : list str) (w : world) :
  ((length argv < 3)%nat
   \/ fs w (Path (nth 2 argv [])) = None
   \/ (exists nd e, fs w KEY = Some nd
                    /\ fst (load_signing_key (CH := CH) script_file w) = inl e)
   \/ (exists e, fst (compute_sha256 (Path (nth 2 argv [])) w) = inl e)
   \/ Utf8.encode (nth 1 argv []) = None
   \/ Utf8.encode (path_name (Path (nth 2 argv []))) = None) ->
  exists e0, run_outcome script_file argv w = inl e0.
Proof.
  intros Hcase. unfold run_outcome, release_outcome.
  destruct (negb (pynacl_installed w)); [eexists; reflexivity|].
  destruct (Nat.ltb_spec (length argv) 3) as [|Hlen]; [eexists; reflexivity|].
  destruct (fs w (Path (nth 2 argv []))) as [node|] eqn:Ez; [|eexists; reflexivity].
  destruct (key_outcome script_file w) as [e|key] eqn:Hk; [eexists; reflexivity|].
  destruct (checksum_outcome _ _) as [e|sha256] eqn:Hc; [eexists; reflexivity|].
  cbv zeta.
  match goal with
  | |- context [Utf8.encode (canonical_message ?a ?b ?c ?d)] =>
      destruct (Utf8.encode (canonical_message a b c d)) as [m|] eqn:Em
  end; [|eexists; reflexivity].
  exfalso. apply encode_canonical_message_inv in Em. destruct Em as [Hv Hd].
  destruct Hcase as [H | [H | [[nd [e [Ek H]]] | [[e H] | [H | H]]]]].
  - lia.
  - discriminate H.
  - rewrite (load_signing_key_present script_file _ Ek) in H. cbn [fst] in H. congruence.
  - rewrite compute_sha256_run, Ez in H. cbn [fst] in H. congruence.
  - exact (Hv H).
  - apply Hd. rewrite !Utf8Facts.encode_app, H.
    destruct (Utf8.encode DOWNLOAD_BASE_URL); reflexivity.
Qed.

(** C5, as the code has it.  The script checks no write and catches no
    exception, so the claim needs the channels.  With a diagnostic
    channel of its own, even one that fails, each of the listed failures
    (missing arguments, a missing archive, a key file that does not load,
    an archive that cannot be read, a version or file name that cannot be
    encoded) ends the run with a status that is not 0 and with nothing
    written to the primary channel.  On channels that accept what is
    written, a run either exits with status 0 having added one complete
    JSON descriptor (a text that reads back as an object with the twelve
    keys) to the primary channel, or exits with status 1 having added
    nothing to it. *)
Theorem descriptor_whole_or_nothing :
  forall (CH : Channels) (argv : list str) (w : world),
    let zip := Path (nth 2 argv []) in
    let status := fst (python (CH := CH) script_file argv w) in
    let w' := snd (python (CH := CH) script_file argv w) in
    (diagnostics_apart CH ->
       ((length argv < 3)%nat
        \/ fs w zip = None
        \/ (exists nd e, fs w KEY = Some nd
                         /\ fst (load_signing_key (CH := CH) script_file w) = inl e)
        \/ (exists e, fst (compute_sha256 zip w) = inl e)
        \/ Utf8.encode (nth 1 argv []) = None
        \/ Utf8.encode (path_name zip) = None) ->
       status <> 0 /\ stdout w' = stdout w)
    /\ (accepts CH ->
          (status = 0
           /\ exists d, map fst d = descriptor_keys
                        /\ JsonReader.read_object (Json.dumps_indent2 d)
                           = Some (map JsonReader.as_units d)
                        /\ stdout w' = stdout w ++ Json.dumps_indent2 d ++ nl)
          \/ (status = 1 /\ stdout w' = stdout w)).
Proof.
  intros CH argv w. cbv zeta. split.
  - intros Hap Hcase. destruct (listed_failure CH argv w Hcase) as [e0 H0].
    exact (python_stops script_file Hap argv w H0).
  - intros Hacc. rewrite (python_accepting script_file Hacc).
    exact (proj1 (python_all_or_nothing script_file argv w)).
Qed.

(** C10. Whitespace around a valid key does not matter.  Let [t] be the
    text encoding of a private key: a text without whitespace that
    decodes to the 32 bytes [s].  A key file that holds [t] surrounded by
    any whitespace (spaces, tabs, line breaks of any kind, any number of
    them) loads as the key with seed [s], the very key that the file
    holding [t] alone loads as. *)
Theorem surrounding_whitespace_is_stripped :
  forall (CH : Channels) (w1 w2 : world) (ws t ws' : str) (padded data s : bytes),
    forallb isspace ws = true ->
    forallb isspace ws' = true ->
    existsb isspace t = false ->
    Utf8.encode t = Some data ->
    b64decode data = Some s ->
    length s = 32%nat ->
    Utf8.encode (ws ++ t ++ ws') = Some padded ->
    fs w1 KEY = Some (File padded true None) ->
    fs w2 KEY = Some (File data true None) ->
    fst (load_signing_key (CH := CH) script_file w1) = inr (mk_SigningKey s)
    /\ fst (load_signing_key (CH := CH) script_file w2) = inr (mk_SigningKey s).
Proof.
  intros CH w1 w2 ws t ws' padded data s Hws Hws' Ht Et Hdec Hlen Ep F1 F2.
  rewrite (load_signing_key_present script_file _ F1).
  rewrite (load_signing_key_present script_file _ F2).
  cbn [fst]. unfold key_outcome. rewrite F1, F2.
  rewrite (@text_outcome_plain KEY padded _ (Utf8Facts.decode_encode _ Ep)).
  rewrite (@text_outcome_plain KEY data _ (Utf8Facts.decode_encode _ Et)).
  unfold key_of_text.
  rewrite (strip_read_padded ws t ws' Hws Hws' Ht).
  pose proof (strip_read_padded [] t [] eq_refl eq_refl Ht) as Hbare.
  cbn [app] in Hbare. rewrite app_nil_r in Hbare. rewrite Hbare.
  rewrite Et, Hdec, Hlen. split; reflexivity.
Qed.

(** X6. What a run needs to succeed.  On channels that accept what is
    written, with PyNaCl installed, two arguments, a readable archive
    whose read does not fail, a key that loads (from the key file or
    freshly generated) and a version and an archive name that can be
    encoded in UTF-8, the run exits with status 0 and prints one line
    that reads back as the descriptor: its [sha256] is the digest of the
    archive, its [download_url] the base address followed by the file
    name of the archive, its [version] and [released_at] the argument and
    the reading of the clock, and its [signature] the one the key gives
    for the four lines built from the encoded version, URL, digest and
    timestamp. *)
Theorem run_succeeds :
  forall (CH : Channels) (argv : list str) (w : world) (content : bytes)
         (fault : option nat) (key : SigningKey) (bv bn : bytes),
    accepts CH ->
    pynacl_installed w = true ->
    (3 <= length argv)%nat ->
    fs w (Path (nth 2 argv [])) = Some (File content true fault) ->
    (forall k, fault = Some k -> (length content <= k)%nat) ->
    fst (load_signing_key (CH := CH) script_file w) = inr key ->
    Utf8.encode (nth 1 argv []) = Some bv ->
    Utf8.encode (path_name (Path (nth 2 argv []))) = Some bn ->
    let version := nth 1 argv [] in
    let download_url := DOWNLOAD_BASE_URL ++ u "/" ++ path_name (Path (nth 2 argv [])) in
    let sha256 := SHA256.hex content in
    let released_at := strftime (clock w) in
    let m := canonical_bytes bv (b "https://loiq-wp-agent.vercel.app/" ++ bn)
               (map byte_of_N sha256) (map byte_of_N released_at) in
    let r := python (CH := CH) script_file argv w in
    fst r = 0
    /\ exists json members,
         stdout (snd r) = stdout w ++ json ++ nl
         /\ JsonReader.read_object json = Some members
         /\ json_get members (u "version") = Some (JsonReader.units version)
         /\ json_get members (u "download_url") = Some (JsonReader.units download_url)
         /\ json_get members (u "sha256") = Some sha256
         /\ json_get members (u "released_at") = Some released_at
         /\ json_get members (u "key_id") = Some KEY_ID
         /\ json_get members (u "signature") = Some (map Byte.to_N (sign_b64 key m)).
Proof.
  intros CH argv w content fault key bv bn Hacc Hp Hlen Ez Hfault Hkey Ev En. cbv zeta.
  rewrite (load_signing_key_accepting script_file Hacc), load_signing_key_result in Hkey.
  rewrite (python_accepting script_file Hacc).
  rewrite (python_exact script_file argv w Hp Hlen Ez), Hkey.
  assert (Hc : checksum_outcome (Path (nth 2 argv [])) (Some (File content true fault))
               = inr (SHA256.hex content)).
  { unfold checksum_outcome. destruct fault as [k|]; [|reflexivity].
    specialize (Hfault k eq_refl).
    destruct (Nat.ltb_spec k (length content)); [lia | reflexivity]. }
  rewrite Hc.
  assert (Eu : Utf8.encode (DOWNLOAD_BASE_URL ++ u "/" ++ path_name (Path (nth 2 argv [])))
               = Some (b "https://loiq-wp-agent.vercel.app/" ++ bn)).
  { rewrite !Utf8Facts.encode_app, En. reflexivity. }
  rewrite (encode_canonical_message _ _ _ _ Ev Eu
             (Utf8Facts.encode_ascii (ascii7_Forall _ (hex_ascii content)))
             (Utf8Facts.encode_ascii (ascii7_Forall _ (strftime_ascii (clock w))))).
  set (m := canonical_bytes bv (b "https://loiq-wp-agent.vercel.app/" ++ bn)
              (map byte_of_N (SHA256.hex content))
              (map byte_of_N (strftime (clock w)))).
  set (d := update_info (nth 1 argv [])
              (DOWNLOAD_BASE_URL ++ u "/" ++ path_name (Path (nth 2 argv [])))
              (SHA256.hex content) (strftime (clock w))
              (map Byte.to_N (sign_b64 key m))
              (dict_get CHANGELOG (nth 1 argv []) (fallback_changelog (nth 1 argv [])))).
  cbn [fst snd]. split; [reflexivity|].
  exists (Json.dumps_indent2 d), (map JsonReader.as_units d).
  split.
  { cbn [stdout add_stderr add_stdout add_trace]. rewrite after_load_stdout. reflexivity. }
  split; [apply JsonReaderFacts.read_object_dumps|].
  split; [reflexivity|]. split; [reflexivity|].
  split.
  { transitivity (Some (JsonReader.units (SHA256.hex content))); [reflexivity|].
    rewrite units_bmp by apply ascii7_bmp, hex_ascii. reflexivity. }
  split.
  { transitivity (Some (JsonReader.units (strftime (clock w)))); [reflexivity|].
    rewrite units_bmp by apply ascii7_bmp, strftime_ascii. reflexivity. }
  split; [reflexivity|].
  transitivity (Some (JsonReader.units (map Byte.to_N (sign_b64 key m)))); [reflexivity|].
  unfold sign_b64. rewrite units_bmp by apply b64encode_bmp. reflexivity.
Qed.

End AnyChannels.

(** ** The further theorems at concrete inputs *)



Lemma successful_run_system_calls_witness :
  let w := Sample.start (Some Sample.key_file) (Some Sample.zip_file) in
  let r := python (ED := Sample.stand_in) (B64 := Sample.lenient) (PL := Sample.posix)
             Sample.script_file Sample.argv w in
  trace (snd r)
  = trace w ++ [Ev_exists Sample.zip_path; Ev_exists Sample.key_path;
                Ev_open_text Sample.key_path; Ev_open_binary Sample.zip_path; Ev_now].
Proof.
  cbv zeta.
  assert (H : python (ED := Sample.stand_in) (B64 := Sample.lenient) (PL := Sample.posix)
                Sample.script_file Sample.argv
                (Sample.start (Some Sample.key_file) (Some Sample.zip_file))
              = (0, snd (python (ED := Sample.stand_in) (B64 := Sample.lenient)
                           (PL := Sample.posix) Sample.script_file Sample.argv
                           (Sample.start (Some Sample.key_file) (Some Sample.zip_file)))))
    by (vm_compute; reflexivity).
  exact (proj1 (@successful_run_system_calls Sample.stand_in Sample.lenient Sample.posix
                  Sample.script_file Sample.argv _ _ H)).
Defined.



Lemma released_at_reads_back_witness :
  parse_timestamp (strftime (mk_datetime 2026 1 15 9 30 5))
  = Some (mk_datetime 2026 1 15 9 30 5).
Proof.
  exact (proj1 (@released_at_reads_back (mk_datetime 2026 1 15 9 30 5)
                  ltac:(cbn; lia) ltac:(cbn; lia) ltac:(cbn; lia)
                  ltac:(cbn; lia) ltac:(cbn; lia) ltac:(cbn; lia))).
Defined.



Lemma only_missing_archive_exits_cleanly_witness :
  fs (Sample.start (Some Sample.key_file) None)
     (Path (Pathlib := Sample.posix) (u "public/loiq-wp-agent.zip")) = None.
Proof.
  exact (proj2 (@only_missing_archive_exits_cleanly
                  Sample.stand_in Sample.lenient Sample.posix Sample.script_file
                  (u "3.1.4") (u "public/loiq-wp-agent.zip")
                  (Sample.start (Some Sample.key_file) None) 1
                  ltac:(vm_compute; reflexivity))).
Defined.

(** ** A primary channel that runs out of room

    The archive and the key are in place and the run goes through, but
    behind [sys.stdout] there is room for 30 characters.  The run ends
    with status 120, and the first 30 characters of the descriptor are
    what the primary channel holds. *)
Example run_out_of_room_example :
  let w := Sample.start (Some Sample.key_file) (Some Sample.zip_file) in
  let r := python (ED := Sample.stand_in) (B64 := Sample.lenient) (PL := Sample.posix)
             (CH := Sample.out_of_room 30) Sample.script_file Sample.argv w in
  fst r = 120
  /\ stdout (snd r)
     = u "{" ++ nl ++ u "  " ++ [34] ++ u "name" ++ [34] ++ u ": " ++ [34]
         ++ u "LOIQ WordPress Ag"
  /\ exists diagnostics, stderr (snd r) = diagnostics ++ Sample.flush_error.
Proof.
  cbv zeta. split; [vm_compute; reflexivity|]. split; [vm_compute; reflexivity|].
  match goal with
  | |- exists d, ?x = _ => exists (firstn (length x - length Sample.flush_error) x)
  end.
  vm_compute. reflexivity.
Qed.

(** C5, as stated, fails: on this run the status is not 0 and a part of
    the descriptor has been written. *)
Lemma partial_descriptor_when_out_of_room :
  ~ (forall (CH : Channels) (argv : list str) (w : world),
       let r := python (ED := Sample.stand_in) (B64 := Sample.lenient)
                  (PL := Sample.posix) (CH := CH) Sample.script_file argv w in
       (fst r = 0
        /\ exists d, map fst d = descriptor_keys
                     /\ stdout (snd r) = stdout w ++ Json.dumps_indent2 d ++ nl)
       \/ (fst r <> 0 /\ stdout (snd r) = stdout w)).
Proof.
  intros H.
  specialize (H (Sample.out_of_room 30) Sample.argv
                (Sample.start (Some Sample.key_file) (Some Sample.zip_file))).
  cbv zeta in H. destruct H as [[H _] | [_ H]]; vm_compute in H; discriminate H.
Qed.

Lemma descriptor_whole_or_nothing_witness :
  let w := Sample.start (Some Sample.key_file) None in
  let r := python (ED := Sample.stand_in) (B64 := Sample.lenient) (PL := Sample.posix)
             (CH := reliable) Sample.script_file Sample.argv w in
  fst r <> 0 /\ stdout (snd r) = stdout w.
Proof.
  cbv zeta.
  exact (proj1 (@descriptor_whole_or_nothing Sample.stand_in Sample.lenient Sample.posix
                  Sample.script_file reliable Sample.argv
                  (Sample.start (Some Sample.key_file) None))
               reliable_apart (or_intror (or_introl eq_refl))).
Defined.

Lemma surrounding_whitespace_is_stripped_witness :
  let w1 := Sample.start (Some Sample.padded_key_file) None in
  let w2 := Sample.start (Some (File Sample.key_text true None)) None in
  let s := fresh_seed (Sample.start None None) in
  fst (load_signing_key (ED := Sample.stand_in) (B64 := Sample.lenient)
         (PL := Sample.posix) Sample.script_file w1) = inr (mk_SigningKey s)
  /\ fst (load_signing_key (ED := Sample.stand_in) (B64 := Sample.lenient)
            (PL := Sample.posix) Sample.script_file w2) = inr (mk_SigningKey s).
Proof.
  cbv zeta.
  exact (@surrounding_whitespace_is_stripped
           Sample.stand_in Sample.lenient Sample.posix Sample.script_file reliable
           (Sample.start (Some Sample.padded_key_file) None)
           (Sample.start (Some (File Sample.key_text true None)) None)
           (u "  " ++ nl) (map Byte.to_N Sample.key_text) (nl ++ nl ++ u " ")
           (b "  " ++ [x0a] ++ Sample.key_text ++ [x0a; x0a] ++ b " ")
           Sample.key_text (fresh_seed (Sample.start None None))
           eq_refl eq_refl eq_refl
           ltac:(vm_compute; reflexivity) ltac:(vm_compute; reflexivity) eq_refl
           ltac:(vm_compute; reflexivity) eq_refl eq_refl).
Defined.

Lemma run_succeeds_witness :
  let w := Sample.start None (Some Sample.zip_file) in
  fst (python (ED := Sample.stand_in) (B64 := Sample.lenient) (PL := Sample.posix)
         (CH := reliable) Sample.script_file Sample.argv w) = 0.
Proof.
  cbv zeta.
  exact (proj1 (@run_succeeds Sample.stand_in Sample.lenient Sample.posix
                  Sample.script_file reliable Sample.argv
                  (Sample.start None (Some Sample.zip_file))
                  (b "PK archive bytes") None
                  (mk_SigningKey (fresh_seed (Sample.start None (Some Sample.zip_file))))
                  (b "3.1.4") (b "loiq-wp-agent.zip")
                  reliable_accepts eq_refl ltac:(simpl; lia) eq_refl
                  ltac:(intros k Hk; discriminate Hk)
                  ltac:(vm_compute; reflexivity) eq_refl eq_refl)).
Defined.
